(** * geocluster: the address -> cluster -> waypoints pipeline of [cluster.py]

    A shallow embedding of [SimpleDeliveryClusterer] and of [main], and the
    properties of the pipeline that the specification states.

    The three collaborators of the script that live outside the repository
    are kept abstract, as variables of a section:
    - the Nominatim service behind [self.geolocator.geocode],
    - Python's [random.random], behind [random.uniform],
    - scikit-learn's [KMeans(...).fit_predict].
    Everything the script itself does (the retry loop, the validation, the
    regrouping into driver routes, the [try]/[except] of [main]) is code of
    this file.

    Python floats are modelled by the rationals they denote. The script never
    computes on coordinates; on durations it computes only
    [2 ** i + random.uniform(0, 1)], and every float operation of that
    expression is the exact operation followed by [round_double], the
    rounding to the nearest double. *)

From Stdlib Require Import QArith Qround Lqa DecimalString DecimalZ.
From stdpp Require Import gmap strings list fin_maps sorting.

Local Open Scope Z_scope.

(** ** Data model *)

Definition Address := string.

(** [(location.latitude, location.longitude)] *)
Definition Coords : Type := Q * Q.

(** The dictionary built at lines 23-27 of [cluster.py]. *)
Record GeocodedPoint := mkPoint {
  location : Address;
  stopover : bool;
  coords : Coords
}.

(** The dictionary appended at lines 65-68. *)
Record Waypoint := mkWaypoint {
  wp_location : Address;
  wp_stopover : bool
}.

(** [{"waypoints": [...]}], the value stored under a driver identifier. *)
Record DriverRoute := mkRoute { waypoints : list Waypoint }.

(** [driver_routes]: a Python [dict] from driver identifiers to routes. The
    insertion order of the keys, which only shows in the order of the keys of
    the JSON file, is not kept. *)
Abbreviation Routes := (gmap string DriverRoute).

(** Exceptions, all of them subclasses of Python's [Exception]. *)
Inductive exn :=
| GeocoderTimedOut
| ValueError (msg : string)
| IndexError (msg : string)
| OtherException (msg : string).

#[global] Instance exn_eq_dec : EqDecision exn.
Proof. solve_decision. Defined.

(** [str(e)]; for a timeout, the message geopy gives it. *)
Definition str_exn (e : exn) : string :=
  match e with
  | GeocoderTimedOut => "Service timed out"
  | ValueError msg | IndexError msg | OtherException msg => msg
  end.

(** What one call of [self.geolocator.geocode(address)] does: it returns a
    [Location], returns [None] (nothing found), or raises. *)
Inductive Response :=
| Found (latitude longitude : Q)
| NoResult
| Raises (e : exn).

(** Observable actions of a run, in the order they happen. *)
Inductive Event :=
| Sleep (seconds : Q)
| Geocode (address : Address)
| FitPredict (n_clusters random_state : Z) (X : list Coords)
| OpenWrite (path : string)
| JsonDump (routes : Routes)
| Print (text : string).

(** The state a run threads along: how many lookups the service has answered,
    how many draws the random generator has made, and the actions so far. *)
Record World := mkWorld {
  calls : nat;
  draws : nat;
  log : list Event
}.

(** ** A state-and-exception monad for the statements of the script *)

Definition M (A : Type) : Type := World -> (exn + A) * World.

Definition ret {A} (a : A) : M A := fun w => (inr a, w).

Definition raise {A} (e : exn) : M A := fun w => (inl e, w).

Definition bind {A B} (m : M A) (k : A -> M B) : M B :=
  fun w =>
    match m w with
    | (inl e, w') => (inl e, w')
    | (inr a, w') => k a w'
    end.

(** [try: body  except ...: handler] *)
Definition try_except {A} (body : M A) (handler : exn -> M A) : M A :=
  fun w =>
    match body w with
    | (inl e, w') => handler e w'
    | (inr a, w') => (inr a, w')
    end.

Notation "x <~ m ;; k" := (bind m (fun x => k))
  (at level 100, m at next level, right associativity).
Notation "m ;;; k" := (bind m (fun _ => k))
  (at level 100, right associativity).

Definition emit (ev : Event) : M unit :=
  fun w => (inr tt, mkWorld (calls w) (draws w) (log w ++ [ev])).

(** [time.sleep(seconds)] *)
Definition time_sleep (seconds : Q) : M unit := emit (Sleep seconds).

(** [print(text)] *)
Definition print (text : string) : M unit := emit (Print text).

(** [str(n)] for a Python integer. *)
Definition str_int (n : Z) : string := NilEmpty.string_of_int (Z.to_int n).

(** ** Float arithmetic

    The result of a float operation is the exact result rounded to the
    nearest binary64 number, ties to even. Infinities and NaN have no
    rational and are left out: the numbers the script adds stay below 4. *)

(** The nearest integer, ties to the even one. *)
Definition rne (q : Q) : Z :=
  let f := Qfloor q in
  match Qcompare (q - inject_Z f) (1 # 2) with
  | Lt => f
  | Gt => f + 1
  | Eq => if Z.even f then f else f + 1
  end.

(** [floor (log2 x)], for [0 < x]. *)
Definition ilog2 (x : Q) : Z :=
  if Qle_bool 1 x then Z.log2 (Qfloor x) else - Z.log2_up (Qceiling (/ x)).

(** [2 ^ e], for any integer [e]. *)
Definition pow2 (e : Z) : Q :=
  match e with
  | Zneg p => 1 # (2 ^ p)
  | _ => inject_Z (2 ^ e)
  end.

(** The exponent of the last bit of the 53-bit significand of [x]; it does
    not go below that of the subnormal numbers. *)
Definition ulp_exponent (x : Q) : Z := Z.max (ilog2 x - 52) (-1074).

Definition round_positive (x : Q) : Q :=
  let e := ulp_exponent x in
  Qred (inject_Z (rne (x / pow2 e)) * pow2 e).

(** The double nearest to [x]. *)
Definition round_double (x : Q) : Q :=
  match Qcompare x 0 with
  | Eq => 0
  | Gt => round_positive x
  | Lt => - round_positive (- x)
  end.

(** The value of [random.uniform(a, b)], that is of
    [a + (b - a) * self.random()], for integers [a] and [b], when
    [random.random()] yields [r]: a float product, then a float sum. *)
Definition uniform_value (a b r : Q) : Q :=
  round_double (a + round_double ((b - a) * r)).

(** [wait_time] of line 30 at iteration [i], for the draw [r]. *)
Definition backoff_wait (i : nat) (r : Q) : Q :=
  round_double (inject_Z (2 ^ Z.of_nat i) + uniform_value 0 1 r).

(** How a [return] inside the body of a [for] loop is told apart from falling
    through to the next iteration. *)
Inductive flow (A : Type) :=
| Return (v : A)
| Next.
Arguments Return {A} v.
Arguments Next {A}.

Section Pipeline.

(** [service n address]: the answer of the service to the lookup of
    [address] when [n] lookups have been answered before. *)
Variable service : nat -> Address -> Response.

(** [random n]: the [n]-th value of [random.random()]. *)
Variable random : nat -> Q.

(** [sklearn n_clusters random_state X]: what
    [KMeans(n_clusters=.., random_state=..).fit_predict(X)] does: it raises
    or returns one label per row. *)
Variable sklearn : Z -> Z -> list Coords -> exn + list Z.

(** [self.geolocator.geocode(address)] *)
Definition geolocator_geocode (address : Address) : M (option Coords) :=
  fun w =>
    let w' := mkWorld (S (calls w)) (draws w) (log w ++ [Geocode address]) in
    match service (calls w) address with
    | Found lat lon => (inr (Some (lat, lon)), w')
    | NoResult => (inr None, w')
    | Raises e => (inl e, w')
    end.

(** [random.uniform(a, b)], that is [a + (b - a) * random.random()]. *)
Definition random_uniform (a b : Q) : M Q :=
  fun w =>
    (inr (uniform_value a b (random (draws w))),
     mkWorld (calls w) (S (draws w)) (log w)).

Definition retries : nat := 3.

(** The body of the [for] loop of [geocode_address], lines 19-35, at
    iteration [i]. *)
Definition geocode_attempt (address : Address) (i : nat)
  : M (flow (option GeocodedPoint)) :=
  try_except
    (time_sleep 1 ;;;
     location <~ geolocator_geocode address ;;
     match location with
     | Some c => ret (Return (Some (mkPoint address true c)))
     | None => ret Next
     end)
    (fun e =>
       match e with
       | GeocoderTimedOut =>
           if (i <? retries - 1)%nat then
             jitter <~ random_uniform 0 1 ;;
             let wait_time := round_double (inject_Z (2 ^ Z.of_nat i) + jitter) in
             time_sleep wait_time ;;;
             ret Next
           else ret (Return None)
       | _ => ret (Return None)
       end).

(** [for i in range: ...] followed by the final [return None] of line 36. *)
Fixpoint geocode_loop (address : Address) (range : list nat)
  : M (option GeocodedPoint) :=
  match range with
  | [] => ret None
  | i :: rest =>
      r <~ geocode_attempt address i ;;
      match r with
      | Return v => ret v
      | Next => geocode_loop address rest
      end
  end.

(** [geocode_address], lines 15-36. *)
Definition geocode_address (address : Address) : M (option GeocodedPoint) :=
  geocode_loop address (seq 0 retries).

(** The loop of lines 41-45: geocode every address in input order and keep
    the successes. *)
Fixpoint geocode_each (addresses : list Address)
    (location_data : list GeocodedPoint) : M (list GeocodedPoint) :=
  match addresses with
  | [] => ret location_data
  | addr :: rest =>
      location <~ geocode_address addr ;;
      match location with
      | Some p => geocode_each rest (location_data ++ [p])
      | None => geocode_each rest location_data
      end
  end.

(** The message of the [ValueError] of line 48. *)
Definition not_enough_message (available : nat) (num_drivers : Z) : string :=
  "Not enough valid addresses (" +:+ str_int (Z.of_nat available)
    +:+ ") for " +:+ str_int num_drivers +:+ " drivers".

(** [KMeans(n_clusters=.., random_state=..).fit_predict(X)], lines 54-55. *)
Definition kmeans_fit_predict (n_clusters random_state : Z)
    (X : list Coords) : M (list Z) :=
  fun w =>
    let w' := mkWorld (calls w) (draws w)
                (log w ++ [FitPredict n_clusters random_state X]) in
    match sklearn n_clusters random_state X with
    | inl e => (inl e, w')
    | inr labels => (inr labels, w')
    end.

(** [f"driver_{cluster_id + 1}"], line 60. *)
Definition driver_id_of (cluster_id : Z) : string :=
  "driver_" +:+ str_int (cluster_id + 1).

(** [{"location": p["location"], "stopover": True}], lines 65-68. *)
Definition waypoint_of (p : GeocodedPoint) : Waypoint :=
  mkWaypoint (location p) true.

(** [.append(x)] on the list stored under ["waypoints"]. *)
Definition append_waypoint (x : Waypoint) (r : DriverRoute) : DriverRoute :=
  mkRoute (waypoints r ++ [x]).

(** The body of the loop of lines 59-68, for the pair [(i, cluster_id)].
    [location_data[i]] raises [IndexError] out of range. *)
Definition organize_step (location_data : list GeocodedPoint) (i : nat)
    (cluster_id : Z) (driver_routes : Routes) : M Routes :=
  let driver_id := driver_id_of cluster_id in
  let driver_routes :=
    match driver_routes !! driver_id with
    | None => <[driver_id := mkRoute []]> driver_routes
    | Some _ => driver_routes
    end in
  match location_data !! i with
  | None => raise (IndexError "list index out of range")
  | Some p => ret (alter (append_waypoint (waypoint_of p)) driver_id driver_routes)
  end.

(** [for i, cluster_id in enumerate(clusters): ...], with [i] the index of
    the head of [clusters]. *)
Fixpoint organize (location_data : list GeocodedPoint) (i : nat)
    (clusters : list Z) (driver_routes : Routes) : M Routes :=
  match clusters with
  | [] => ret driver_routes
  | cluster_id :: rest =>
      driver_routes <~ organize_step location_data i cluster_id driver_routes ;;
      organize location_data (S i) rest driver_routes
  end.

(** Lines 47-70: what [cluster_addresses] does once [location_data] is
    built. *)
Definition cluster_located (location_data : list GeocodedPoint)
    (num_drivers : Z) : M Routes :=
  if Z.of_nat (length location_data) <? num_drivers then
    raise (ValueError (not_enough_message (length location_data) num_drivers))
  else
    let coordinates := map coords location_data in
    clusters <~ kmeans_fit_predict num_drivers 42 coordinates ;;
    organize location_data 0 clusters ∅.

(** [cluster_addresses], lines 38-70. *)
Definition cluster_addresses (addresses : list Address) (num_drivers : Z)
  : M Routes :=
  location_data <~ geocode_each addresses [] ;;
  cluster_located location_data num_drivers.

(** Lines 89-100 of [main]: the [try] statement, for a list of addresses and
    the driver count read from the prompt. *)
Definition export_routes (addresses : list Address) (num_drivers : Z)
  : M unit :=
  try_except
    (routes <~ cluster_addresses addresses num_drivers ;;
     emit (OpenWrite "driver_routes.json") ;;;
     emit (JsonDump routes) ;;;
     print "Routes exported to driver_routes.json")
    (fun e => print ("Error: " +:+ str_exn e)).

(** The sample addresses of lines 74-85. *)
Definition addresses : list Address :=
  [ "15277 Castle Downs Rd NW, Edmonton, AB";
    "11920 129 Ave NW, Edmonton, AB";
    "15178 127 St NW, Edmonton, AB";
    "11320 132 Ave NW, Edmonton, AB";
    "4501 30 Ave NW, Edmonton, AB";
    "10408 124 St NW, Edmonton, AB";
    "10363 Jasper Ave NW, Edmonton, AB";
    "4225 118 Ave NW, Edmonton, AB";
    "2007 138 Ave NW, Edmonton, AB";
    "10025 102A Ave NW, Edmonton, AB T5J 2Z2" ].

(** [main], for the integer [num_drivers] that [int(input(...))] yields. *)
Definition main (num_drivers : Z) : M unit :=
  export_routes addresses num_drivers.

End Pipeline.

(** ** Vocabulary of the statements *)

(** The world after one lookup of [a] that was followed by no wait. *)
Definition after_attempt (a : Address) (w : World) : World :=
  mkWorld (S (calls w)) (draws w) (log w ++ [Sleep 1; Geocode a]).

(** The world after a lookup of [a] at iteration [i] that timed out and was
    followed by the backoff wait. *)
Definition after_backoff (random : nat -> Q) (a : Address) (i : nat)
    (w : World) : World :=
  mkWorld (S (calls w)) (S (draws w))
    (log w ++ [Sleep 1; Geocode a; Sleep (backoff_wait i (random (draws w)))]).

(** The actions of the geocoder: waits and lookups. *)
Definition lookup_event (ev : Event) : Prop :=
  match ev with
  | Sleep _ | Geocode _ => True
  | _ => False
  end.

(** [w'] is reached from [w] by waits and lookups only. *)
Definition geocoding_only (w w' : World) : Prop :=
  exists evs, log w' = log w ++ evs /\ Forall lookup_event evs.

(** A lookup that fails for a reason other than a timeout, in the words of
    the specification: nothing found, or an exception that is not a
    timeout. *)
Definition non_timeout_failure (r : Response) : Prop :=
  r = NoResult \/ exists e, r = Raises e /\ e <> GeocoderTimedOut.

(** The waypoints of the points that carry the label [c], in the order of the
    points. *)
Definition group_of (pairs : list (GeocodedPoint * Z)) (c : Z) : list Waypoint :=
  waypoint_of <$> (filter (fun pl => pl.2 = c) pairs).*1.

(** The update of [driver_routes] that one iteration of the loop of lines
    59-68 makes for the point [p] with the label [cluster_id]. *)
Definition assign (p : GeocodedPoint) (cluster_id : Z) (driver_routes : Routes)
  : Routes :=
  let driver_id := driver_id_of cluster_id in
  alter (append_waypoint (waypoint_of p)) driver_id
    match driver_routes !! driver_id with
    | None => <[driver_id := mkRoute []]> driver_routes
    | Some _ => driver_routes
    end.

(** The routes that the loop builds from the pairs of a point and its
    label. *)
Definition regroup (pairs : list (GeocodedPoint * Z)) : Routes :=
  foldl (fun d pl => assign pl.1 pl.2 d) ∅ pairs.

(** The world after the call of [fit_predict] on [X]. *)
Definition after_fit (n_clusters : Z) (X : list Coords) (w : World) : World :=
  mkWorld (calls w) (draws w) (log w ++ [FitPredict n_clusters 42 X]).

(** Actions that neither cluster nor touch the output file. *)
Definition quiet_event (ev : Event) : Prop :=
  match ev with
  | FitPredict _ _ _ | OpenWrite _ | JsonDump _ => False
  | _ => True
  end.

(** All the waypoints of all the drivers. *)
Definition all_waypoints (routes : Routes) : list Waypoint :=
  map_to_list routes ≫= (fun kv => waypoints kv.2).

(** What the script relies on from [fit_predict]: one label per row, each in
    [[0, n_clusters)]. *)
Definition labels_per_row (sklearn : Z -> Z -> list Coords -> exn + list Z)
  : Prop :=
  forall n_clusters random_state X labels,
    sklearn n_clusters random_state X = inr labels ->
    length labels = length X /\ Forall (fun l => 0 <= l < n_clusters) labels.

(** [fit_predict] accepts every group count between 1 and the number of
    rows. *)
Definition accepts_valid_counts
    (sklearn : Z -> Z -> list Coords -> exn + list Z) : Prop :=
  forall n_clusters random_state X,
    1 <= n_clusters <= Z.of_nat (length X) ->
    exists labels, sklearn n_clusters random_state X = inr labels.

(** What [geocode_address] makes of the answer of a lookup of [a]: the point
    of lines 23-27 when something was found, absent otherwise. *)
Definition answer_of (a : Address) (r : Response) : option GeocodedPoint :=
  match r with
  | Found lat lon => Some (mkPoint a true (lat, lon))
  | _ => None
  end.

(** Every lookup of the list comes directly after a wait of one second;
    [waited] tells whether the action before the list was such a wait. *)
Fixpoint limited (waited : bool) (evs : list Event) : bool :=
  match evs with
  | [] => true
  | Sleep seconds :: rest => limited (Qeq_bool seconds 1) rest
  | Geocode _ :: rest => waited && limited false rest
  | _ :: rest => limited false rest
  end.

Definition rate_limited (evs : list Event) : bool := limited false evs.

(** The seconds spent in [time.sleep] by the actions of the list. *)
Fixpoint sleep_total (evs : list Event) : Q :=
  match evs with
  | [] => 0
  | Sleep seconds :: rest => seconds + sleep_total rest
  | _ :: rest => sleep_total rest
  end.

(** The largest time [geocode_address] can sleep over its last [n]
    iterations, when the jitter is at most 1. *)
Definition sleep_cap (n : nat) : Q :=
  match n with
  | 0%nat => 0
  | 1%nat => 1
  | 2%nat => 5
  | _ => 8
  end.

(** Where a point of [location_data] comes from: a lookup of its own address,
    made between the worlds [w] and [w'], that found its coordinates. *)
Definition found_between (service : nat -> Address -> Response)
    (w w' : World) (p : GeocodedPoint) : Prop :=
  exists n lat lon,
    (calls w <= n < calls w')%nat
    /\ service n (location p) = Found lat lon
    /\ p = mkPoint (location p) true (lat, lon).

(** The results of calling [geocode_address] on every occurrence of the list
    in turn, one result per occurrence, each call starting in the world the
    call before it left; the second component is the last world. *)
Fixpoint lookup_each (service : nat -> Address -> Response)
    (random : nat -> Q) (addrs : list Address) (w : World)
  : list (option GeocodedPoint) * World :=
  match addrs with
  | [] => ([], w)
  | a :: rest =>
      match geocode_address service random a w with
      | (inr r, w1) =>
          let (results, w2) := lookup_each service random rest w1 in
          (r :: results, w2)
      | (inl _, w1) => ([], w1)
      end
  end.

(** The addresses looked up by the actions of the list, in order. *)
Fixpoint lookups (evs : list Event) : list Address :=
  match evs with
  | [] => []
  | Geocode a :: rest => a :: lookups rest
  | _ :: rest => lookups rest
  end.

(** The number of calls of [time.sleep] among the actions of the list. *)
Fixpoint sleep_count (evs : list Event) : nat :=
  match evs with
  | [] => 0
  | Sleep _ :: rest => S (sleep_count rest)
  | _ :: rest => sleep_count rest
  end.

(** The actions that [geocode_address] may make for the address [a]: [c]
    lookups of [a] and of nothing else, between one and three, a wait before
    each, and [d] backoff waits more, fewer than lookups. *)
Definition block_of (a : Address) (evs : list Event) : Prop :=
  exists c d : nat,
    (1 <= c <= 3)%nat /\ (d < c)%nat
    /\ lookups evs = replicate c a
    /\ sleep_count evs = (c + d)%nat.

(** ** Runs on concrete collaborators *)

Module Demo.

(** A service that knows four addresses, two in the north and two in the
    south, times out once on ["slow"], finds nothing for ["nowhere"] and
    fails on anything else. *)
Definition service (n : nat) (a : Address) : Response :=
  if String.eqb a "A" then Found 53 (-113)
  else if String.eqb a "B" then Found 54 (-113)
  else if String.eqb a "C" then Found 10 20
  else if String.eqb a "D" then Found 11 20
  else if String.eqb a "slow" then
    (if (n =? 0)%nat then Raises GeocoderTimedOut else Found 1 1)
  else if String.eqb a "stuck" then Raises GeocoderTimedOut
  else if String.eqb a "nowhere" then NoResult
  else Raises (OtherException "connection refused").

Definition random (n : nat) : Q := (1 # 2).

(** A stand-in for the clustering routine that honours its contract: it
    refuses a group count outside [1, len(X)], and otherwise puts the rows
    with a latitude of at least 50 in group 0 and the others in the last
    group. *)
Definition sklearn (n_clusters random_state : Z) (X : list Coords)
  : exn + list Z :=
  if (1 <=? n_clusters) && (n_clusters <=? Z.of_nat (length X)) then
    inr (map (fun c : Coords => if Qle_bool 50 (fst c) then 0 else n_clusters - 1) X)
  else inl (ValueError "invalid n_clusters").

Definition w0 : World := mkWorld 0 0 [].

(** The points and the world that geocoding [addrs] from [w0] gives. *)
Definition located (addrs : list Address) : list GeocodedPoint * World :=
  match geocode_each service random addrs [] w0 with
  | (inr ld, w) => (ld, w)
  | (inl _, w) => ([], w)
  end.

(** The routes and the world that [cluster_addresses] gives from [w0]. *)
Definition routed (addrs : list Address) (k : Z) : Routes * World :=
  match cluster_addresses service random sklearn addrs k w0 with
  | (inr routes, w) => (routes, w)
  | (inl _, w) => (∅, w)
  end.



Definition w2 : World := mkWorld 5 3 [Print "earlier run"].

End Demo.

(** Clustering routines that break the contract of [fit_predict], to run the
    script on what it does not expect. *)
Module Edge.

(** One label too many. *)
Definition sklearn_long (n_clusters random_state : Z) (X : list Coords)
  : exn + list Z :=
  inr (0 :: map (fun _ => 0) X).

(** A single label, whatever the number of rows. *)
Definition sklearn_short (n_clusters random_state : Z) (X : list Coords)
  : exn + list Z :=
  inr [0].

(** A clustering routine that numbers the two groups of [Demo.sklearn] the
    other way round. *)
Definition sklearn_flipped (n_clusters random_state : Z) (X : list Coords)
  : exn + list Z :=
  if (1 <=? n_clusters) && (n_clusters <=? Z.of_nat (length X)) then
    inr (map (fun c : Coords => if Qle_bool 50 (fst c) then n_clusters - 1 else 0) X)
  else inl (ValueError "invalid n_clusters").

(** A generator that draws 0, the least value of [random.random()]. *)
Definition random_zero (n : nat) : Q := 0.


End Edge.

(** ** Rounding to a double *)

Lemma rne_ge (n : Z) (q : Q) : (inject_Z n <= q)%Q -> n <= rne q.
Proof.
  intros H. apply Qfloor_resp_le in H. rewrite Qfloor_Z in H.
  unfold rne. destruct (q - inject_Z (Qfloor q) ?= 1 # 2)%Q; [| lia | lia].
  destruct (Z.even (Qfloor q)); lia.
Qed.

Lemma rne_le (n : Z) (q : Q) : (q <= inject_Z n)%Q -> rne q <= n.
Proof.
  intros H. pose proof (Qfloor_le q) as Hf.
  assert (Hfn : Qfloor q <= n).
  { rewrite <- (Qfloor_Z n). apply Qfloor_resp_le. exact H. }
  destruct (Z.eq_dec (Qfloor q) n) as [E | E].
  - assert (Hz : (q - inject_Z (Qfloor q) < 1 # 2)%Q).
    { rewrite E. lra. }
    unfold rne.
    destruct (Qcompare_spec (q - inject_Z (Qfloor q)) (1 # 2)); [lra | lia | lra].
  - unfold rne. destruct (q - inject_Z (Qfloor q) ?= 1 # 2)%Q; [| lia | lia].
    destruct (Z.even (Qfloor q)); lia.
Qed.

Lemma ulp_exponent_nonpos (x : Q) (b : Z) :
  (x <= inject_Z b)%Q -> b < 2 ^ 53 -> ulp_exponent x <= 0.
Proof.
  intros Hx Hb. unfold ulp_exponent, ilog2.
  apply Z.max_lub; [| lia].
  destruct (Qle_bool 1 x) eqn:H1.
  - apply Qle_bool_iff in H1.
    assert (Hf : Qfloor x <= b).
    { rewrite <- (Qfloor_Z b). apply Qfloor_resp_le. exact Hx. }
    assert (H1f : 1 <= Qfloor x).
    { rewrite <- (Qfloor_Z 1). apply Qfloor_resp_le. exact H1. }
    assert (Z.log2 (Qfloor x) < 53); [| lia].
    apply Z.log2_lt_pow2; lia.
  - pose proof (Z.log2_up_nonneg (Qceiling (/ x))). lia.
Qed.

(** For a non-positive exponent, [pow2 e] is the inverse of a positive
    integer. *)
Lemma pow2_nonpos (e : Z) :
  e <= 0 -> exists K, 0 < K /\ (pow2 e * inject_Z K == 1)%Q.
Proof.
  intros He. destruct e as [| p | p]; [| lia |].
  - exists 1. split; [lia | reflexivity].
  - exists (Z.pos (2 ^ p)). split; [lia |].
    cbn [pow2]. unfold Qeq, Qmult, inject_Z. cbn. lia.
Qed.

Lemma round_positive_between (a b : Z) (x : Q) :
  (inject_Z a <= x)%Q -> (x <= inject_Z b)%Q -> b < 2 ^ 53 ->
  (inject_Z a <= round_positive x)%Q /\ (round_positive x <= inject_Z b)%Q.
Proof.
  intros Ha Hb Hb53. unfold round_positive. rewrite Qred_correct.
  destruct (pow2_nonpos (ulp_exponent x) (ulp_exponent_nonpos x b Hb Hb53))
    as (K & HK & Hinv).
  set (s := pow2 (ulp_exponent x)) in *.
  assert (HKq : (0 < inject_Z K)%Q) by (unfold Qlt; cbn; lia).
  assert (Hs : (0 < s)%Q).
  { destruct (Qlt_le_dec 0 s) as [|Hneg]; [assumption |].
    assert (s * inject_Z K <= 0)%Q by nra. lra. }
  assert (Hdiv : (x / s == x * inject_Z K)%Q).
  { unfold Qdiv. assert (Hi : (/ s == inject_Z K)%Q).
    { apply (Qmult_inj_l _ _ s); [lra |]. rewrite Qmult_inv_r by lra. lra. }
    rewrite Hi. reflexivity. }
  assert (Hlo : (a * K <= rne (x / s))%Z).
  { apply rne_ge. rewrite Hdiv, inject_Z_mult. nra. }
  assert (Hhi : (rne (x / s) <= b * K)%Z).
  { apply rne_le. rewrite Hdiv, inject_Z_mult. nra. }
  assert (Hlo' : (inject_Z a * inject_Z K <= inject_Z (rne (x / s)))%Q).
  { rewrite <- inject_Z_mult. unfold Qle; cbn. lia. }
  assert (Hhi' : (inject_Z (rne (x / s)) <= inject_Z b * inject_Z K)%Q).
  { rewrite <- inject_Z_mult. unfold Qle; cbn. lia. }
  assert (Hone : forall c, (c * inject_Z K * s == c)%Q).
  { intros c. rewrite <- Qmult_assoc, (Qmult_comm (inject_Z K)), Hinv. ring. }
  split.
  - rewrite <- (Hone (inject_Z a)). apply Qmult_le_compat_r; lra.
  - rewrite <- (Hone (inject_Z b)). apply Qmult_le_compat_r; lra.
Qed.

(** Rounding keeps a number between the integers that bound it, below
    [2^53]: integers of that size are doubles, and rounding is monotone. *)
Lemma round_double_between (a b : Z) (x : Q) :
  0 <= a -> (inject_Z a <= x)%Q -> (x <= inject_Z b)%Q -> b < 2 ^ 53 ->
  (inject_Z a <= round_double x)%Q /\ (round_double x <= inject_Z b)%Q.
Proof.
  intros Ha0 Ha Hb Hb53. unfold round_double.
  assert (Ha0q : (0 <= inject_Z a)%Q) by (unfold Qle; cbn; lia).
  destruct (Qcompare_spec x 0).
  - split; lra.
  - lra.
  - apply round_positive_between; assumption.
Qed.

(** The jitter of a draw in [[0, 1]] is in [[0, 1]]. *)
Lemma uniform_value_unit (r : Q) :
  (0 <= r)%Q -> (r <= 1)%Q ->
  (0 <= uniform_value 0 1 r)%Q /\ (uniform_value 0 1 r <= 1)%Q.
Proof.
  intros H0 H1. unfold uniform_value.
  change 0%Q with (inject_Z 0). change 1%Q with (inject_Z 1).
  assert (Hin : (inject_Z 0 <= (inject_Z 1 - inject_Z 0) * r)%Q
                /\ ((inject_Z 1 - inject_Z 0) * r <= inject_Z 1)%Q).
  { change (inject_Z 0) with 0%Q. change (inject_Z 1) with 1%Q. split; lra. }
  destruct Hin as [Hin0 Hin1].
  destruct (round_double_between 0 1 _ ltac:(lia) Hin0 Hin1 eq_refl) as [Ha Hb].
  apply (round_double_between 0 1); [lia | | | reflexivity].
  - change (inject_Z 0) with 0%Q in *. lra.
  - change (inject_Z 0) with 0%Q in *. change (inject_Z 1) with 1%Q in *. lra.
Qed.

(** The backoff wait of a draw in [[0, 1]] is between [2^i] and
    [2^i + 1]. *)
Lemma backoff_wait_bounds (i : nat) (r : Q) :
  (i <= 1)%nat -> (0 <= r)%Q -> (r <= 1)%Q ->
  (inject_Z (2 ^ Z.of_nat i) <= backoff_wait i r)%Q
  /\ (backoff_wait i r <= inject_Z (2 ^ Z.of_nat i + 1))%Q.
Proof.
  intros Hi H0 H1. destruct (uniform_value_unit r H0 H1) as [Ha Hb].
  unfold backoff_wait.
  apply round_double_between.
  - lia.
  - lra.
  - rewrite inject_Z_plus. change (inject_Z 1) with 1%Q. lra.
  - assert (Hi' : i = 0%nat \/ i = 1%nat) by lia.
    destruct Hi' as [-> | ->]; reflexivity.
Qed.

(** ** The geocoder: one attempt *)

Section GeocoderFacts.

Variable service : nat -> Address -> Response.
Variable random : nat -> Q.

Ltac run_attempt H :=
  unfold geocode_attempt, try_except, bind, time_sleep, emit,
    geolocator_geocode, random_uniform, ret, after_attempt, after_backoff,
    backoff_wait;
  cbn [calls draws log]; rewrite H; cbn [calls draws log];
  rewrite <- ?app_assoc; try reflexivity.

Lemma geocode_attempt_found a i w lat lon :
  service (calls w) a = Found lat lon ->
  geocode_attempt service random a i w
  = (inr (Return (Some (mkPoint a true (lat, lon)))), after_attempt a w).
Proof. intros H. run_attempt H. Qed.

Lemma geocode_attempt_no_result a i w :
  service (calls w) a = NoResult ->
  geocode_attempt service random a i w = (inr Next, after_attempt a w).
Proof. intros H. run_attempt H. Qed.

Lemma geocode_attempt_timeout a i w :
  service (calls w) a = Raises GeocoderTimedOut ->
  (i < retries - 1)%nat ->
  geocode_attempt service random a i w = (inr Next, after_backoff random a i w).
Proof.
  intros H Hi. run_attempt H.
  destruct (Nat.ltb_spec i (retries - 1)); [| lia].
  cbn [calls draws log]. rewrite <- ?app_assoc. reflexivity.
Qed.

Lemma geocode_attempt_last_timeout a i w :
  service (calls w) a = Raises GeocoderTimedOut ->
  (retries - 1 <= i)%nat ->
  geocode_attempt service random a i w = (inr (Return None), after_attempt a w).
Proof.
  intros H Hi. run_attempt H.
  destruct (Nat.ltb_spec i (retries - 1)); [lia | reflexivity].
Qed.

Lemma geocode_attempt_error a i w e :
  service (calls w) a = Raises e ->
  e <> GeocoderTimedOut ->
  geocode_attempt service random a i w = (inr (Return None), after_attempt a w).
Proof.
  intros H He. run_attempt H.
  destruct e; [congruence | ..];
    cbn [calls draws log]; rewrite <- ?app_assoc; reflexivity.
Qed.

End GeocoderFacts.

(** ** The geocoder: the retry loop *)

Section GeocoderLoop.

Variable service : nat -> Address -> Response.
Variable random : nat -> Q.

Lemma geocoding_only_refl w : geocoding_only w w.
Proof. exists []. rewrite app_nil_r. auto. Qed.

Lemma geocoding_only_trans w1 w2 w3 :
  geocoding_only w1 w2 -> geocoding_only w2 w3 -> geocoding_only w1 w3.
Proof.
  intros [e1 [H1 F1]] [e2 [H2 F2]]. exists (e1 ++ e2). split.
  - rewrite H2, H1, app_assoc. reflexivity.
  - apply Forall_app; auto.
Qed.

Lemma geocoding_only_attempt a w : geocoding_only w (after_attempt a w).
Proof. eexists. split; [reflexivity |]. repeat constructor. Qed.

Lemma geocoding_only_backoff a i w :
  geocoding_only w (after_backoff random a i w).
Proof. eexists. split; [reflexivity |]. repeat constructor. Qed.

(** One iteration never raises; it makes exactly one lookup, and what it
    returns, if anything, is absent or the point of the address. *)
Lemma geocode_attempt_total a i w :
  exists f w',
    geocode_attempt service random a i w = (inr f, w')
    /\ calls w' = S (calls w)
    /\ geocoding_only w w'
    /\ (forall p, f = Return (Some p) -> location p = a /\ stopover p = true).
Proof.
  destruct (service (calls w) a) as [lat lon | | e] eqn:Hs.
  - eexists _, _. split; [apply (geocode_attempt_found _ _ _ _ _ _ _ Hs) |].
    split; [reflexivity |]. split; [apply geocoding_only_attempt |].
    intros p [= <-]. auto.
  - eexists _, _. split; [apply (geocode_attempt_no_result _ _ _ _ _ Hs) |].
    split; [reflexivity |]. split; [apply geocoding_only_attempt |].
    intros p [=].
  - destruct (decide (e = GeocoderTimedOut)) as [-> | He].
    + destruct (Nat.lt_ge_cases i (retries - 1)) as [Hi | Hi].
      * eexists _, _.
        split; [apply (geocode_attempt_timeout _ _ _ _ _ Hs Hi) |].
        split; [reflexivity |]. split; [apply geocoding_only_backoff |].
        intros p [=].
      * eexists _, _.
        split; [apply (geocode_attempt_last_timeout _ _ _ _ _ Hs Hi) |].
        split; [reflexivity |]. split; [apply geocoding_only_attempt |].
        intros p [=].
    + eexists _, _.
      split; [apply (geocode_attempt_error _ _ _ _ _ _ Hs He) |].
      split; [reflexivity |]. split; [apply geocoding_only_attempt |].
      intros p [=].
Qed.

(** The loop never raises, makes between one lookup (none for an empty
    range) and one per iteration, and does nothing but wait and look up. *)
Lemma geocode_loop_total a range w :
  exists r w',
    geocode_loop service random a range w = (inr r, w')
    /\ (calls w + Nat.min 1 (length range) <= calls w' <= calls w + length range)%nat
    /\ geocoding_only w w'
    /\ (forall p, r = Some p -> location p = a /\ stopover p = true).
Proof.
  revert w. induction range as [| i rest IH]; intros w.
  - exists None, w. cbn. split; [reflexivity |]. split; [lia |].
    split; [apply geocoding_only_refl | intros p [=]].
  - destruct (geocode_attempt_total a i w) as (f & w1 & Hrun & Hc & Hg & Hp).
    cbn [geocode_loop]. unfold bind at 1. rewrite Hrun.
    destruct f as [v |].
    + exists v, w1. split; [reflexivity |]. cbn [length]. split; [lia |].
      split; [exact Hg |]. intros p ->. apply Hp. reflexivity.
    + destruct (IH w1) as (r & w2 & Hrun2 & Hc2 & Hg2 & Hp2).
      exists r, w2. split; [exact Hrun2 |]. cbn [length]. split; [lia |].
      split; [exact (geocoding_only_trans _ _ _ Hg Hg2) | exact Hp2].
Qed.

End GeocoderLoop.


(** ** The geocoder: retries, backoff and failures *)

Section GeocoderClaims.

Variable service : nat -> Address -> Response.
Variable random : nat -> Q.

(** A point that [geocode_address] returns is the point of the address, with
    the flag set. *)
Lemma geocode_address_stopover (a : Address) (w w' : World) (p : GeocodedPoint) :
  geocode_address service random a w = (inr (Some p), w') ->
  location p = a /\ stopover p = true.
Proof.
  intros Hrun.
  destruct (geocode_loop_total service random a (seq 0 retries) w)
    as (r & w1 & Hrun1 & _ & _ & Hp).
  unfold geocode_address in Hrun. rewrite Hrun1 in Hrun.
  injection Hrun as -> _. apply Hp. reflexivity.
Qed.

End GeocoderClaims.

(** C3, as the specification has it, fails: the demonstration service finds
    nothing for ["nowhere"], which is a failure that is not a timeout, and
    [geocode_address] then makes three lookups, not one. *)
Lemma not_found_is_retried :
  ~ (forall (service : nat -> Address -> Response) (random : nat -> Q)
            (a : Address) (w : World),
       non_timeout_failure (service (calls w) a) ->
       fst (geocode_address service random a w) = inr None
       /\ calls (snd (geocode_address service random a w)) = S (calls w)).
Proof.
  intros H.
  destruct (H Demo.service Demo.random "nowhere" Demo.w0) as [_ Hcalls].
  - left. reflexivity.
  - vm_compute in Hcalls. discriminate Hcalls.
Qed.

(** ** The regrouping loop *)

Section Regrouping.

Lemma str_int_inj (m n : Z) : str_int m = str_int n -> m = n.
Proof.
  unfold str_int. intros H.
  apply (f_equal NilEmpty.int_of_string) in H.
  rewrite !NilEmpty.isi in H.
  injection H as H. apply DecimalZ.to_int_inj. exact H.
Qed.

(** Distinct cluster ids get distinct driver identifiers. *)
Lemma driver_id_of_inj (c c' : Z) : driver_id_of c = driver_id_of c' -> c = c'.
Proof.
  unfold driver_id_of. cbn [String.append]. intros H.
  injection H as H. apply str_int_inj in H. lia.
Qed.

Lemma organize_step_some ld i c d w p :
  ld !! i = Some p ->
  organize_step ld i c d w = (inr (assign p c d), w).
Proof. intros H. unfold organize_step, assign. rewrite H. reflexivity. Qed.

Lemma organize_step_none ld i c d w :
  ld !! i = None ->
  organize_step ld i c d w = (inl (IndexError "list index out of range"), w).
Proof. intros H. unfold organize_step. rewrite H. reflexivity. Qed.

(** While there is a point for every label, the loop is the fold of
    [assign] over the points paired with their labels. *)
Lemma organize_ok ld labels : forall i d w,
  (length labels <= length (drop i ld))%nat ->
  organize ld i labels d w
  = (inr (foldl (fun d pl => assign pl.1 pl.2 d) d (zip (drop i ld) labels)), w).
Proof.
  induction labels as [| c labels IH]; intros i d w Hlen.
  - cbn. destruct (drop i ld); reflexivity.
  - destruct (ld !! i) as [p |] eqn:Hp.
    + rewrite (drop_S _ _ _ Hp) in *. cbn [length] in Hlen.
      cbn [organize]. unfold bind.
      rewrite (organize_step_some _ _ _ _ _ _ Hp).
      rewrite IH by lia. reflexivity.
    + apply lookup_ge_None in Hp. rewrite drop_ge in Hlen by lia.
      cbn in Hlen. lia.
Qed.

(** With more labels than points the loop raises: it succeeds only when
    every label has its point. *)
Lemma organize_short ld labels : forall i d w,
  (length (drop i ld) < length labels)%nat ->
  organize ld i labels d w = (inl (IndexError "list index out of range"), w).
Proof.
  induction labels as [| c labels IH]; intros i d w Hlen.
  - cbn in Hlen. lia.
  - cbn [organize]. unfold bind.
    destruct (ld !! i) as [p |] eqn:Hp.
    + rewrite (organize_step_some _ _ _ _ _ _ Hp).
      apply IH. rewrite (drop_S _ _ _ Hp) in Hlen. cbn [length] in Hlen. lia.
    + rewrite (organize_step_none ld i c d w Hp). reflexivity.
Qed.

Lemma regroup_snoc pairs p c :
  regroup (pairs ++ [(p, c)]) = assign p c (regroup pairs).
Proof. unfold regroup. rewrite foldl_app. reflexivity. Qed.

Lemma group_of_snoc pairs p c c' :
  group_of (pairs ++ [(p, c)]) c'
  = group_of pairs c' ++ (if decide (c = c') then [waypoint_of p] else []).
Proof.
  unfold group_of. rewrite filter_app, !fmap_app. f_equal.
  rewrite filter_cons, filter_nil. cbn [snd].
  destruct (decide (c = c')); reflexivity.
Qed.

Lemma group_of_absent pairs c : c ∉ pairs.*2 -> group_of pairs c = [].
Proof.
  unfold group_of. induction pairs as [| [q l] pairs IH]; [reflexivity |].
  cbn [fmap list_fmap snd]. intros Hnin.
  rewrite filter_cons_False.
  - apply IH. intros Hin. apply Hnin. right. exact Hin.
  - cbn. intros ->. apply Hnin. left.
Qed.

Lemma group_of_present pairs c : c ∈ pairs.*2 -> group_of pairs c <> [].
Proof.
  unfold group_of. induction pairs as [| [q l] pairs IH].
  - intros Hin. inversion Hin.
  - cbn [fmap list_fmap snd]. intros Hin.
    destruct (decide (l = c)) as [-> | Hne].
    + rewrite filter_cons_True by reflexivity. discriminate.
    + rewrite filter_cons_False by (cbn; exact Hne).
      apply IH. inversion Hin; subst; [congruence | assumption].
Qed.

Lemma assign_lookup_same p c d :
  assign p c d !! driver_id_of c
  = Some (mkRoute (match d !! driver_id_of c with
                   | Some r => waypoints r
                   | None => []
                   end ++ [waypoint_of p])).
Proof.
  unfold assign. rewrite lookup_alter_eq.
  destruct (d !! driver_id_of c) as [r |] eqn:Hd.
  - rewrite Hd. reflexivity.
  - rewrite lookup_insert_eq. reflexivity.
Qed.

Lemma assign_lookup_other p c d id :
  id <> driver_id_of c -> assign p c d !! id = d !! id.
Proof.
  intros Hne. unfold assign. rewrite lookup_alter_ne by congruence.
  destruct (d !! driver_id_of c); [reflexivity |].
  rewrite lookup_insert_ne by congruence. reflexivity.
Qed.

(** The route of a cluster id: present exactly when the id labels a point,
    and then made of the waypoints of its points, in their order. *)
Lemma regroup_lookup pairs c :
  regroup pairs !! driver_id_of c
  = if decide (c ∈ pairs.*2) then Some (mkRoute (group_of pairs c)) else None.
Proof.
  induction pairs as [| [p c0] pairs IH] using rev_ind.
  - cbn. rewrite decide_False by apply not_elem_of_nil. reflexivity.
  - rewrite regroup_snoc, group_of_snoc, fmap_app. cbn [fmap list_fmap snd].
    destruct (decide (c0 = c)) as [-> | Hne].
    + rewrite assign_lookup_same, IH.
      rewrite (decide_True (P := c ∈ _ ++ _)) by (apply elem_of_app; right; apply list_elem_of_singleton; reflexivity).
      destruct (decide (c ∈ pairs.*2)) as [Hin | Hnin]; [reflexivity |].
      rewrite (group_of_absent _ _ Hnin). reflexivity.
    + rewrite assign_lookup_other, IH, app_nil_r
        by (intros E; apply driver_id_of_inj in E; congruence).
      destruct (decide (c ∈ pairs.*2)) as [Hin | Hnin].
      * rewrite decide_True by (apply elem_of_app; left; exact Hin). reflexivity.
      * rewrite decide_False; [reflexivity |].
        rewrite elem_of_app, list_elem_of_singleton. intros [? | ?]; congruence.
Qed.

(** Every key of the routes is the identifier of a cluster id that labels a
    point. *)
Lemma regroup_keys pairs id :
  is_Some (regroup pairs !! id) ->
  exists c, c ∈ pairs.*2 /\ id = driver_id_of c.
Proof.
  induction pairs as [| [p c0] pairs IH] using rev_ind.
  - cbn. rewrite lookup_empty. intros [? [=]].
  - rewrite regroup_snoc, fmap_app. cbn [fmap list_fmap snd].
    destruct (decide (id = driver_id_of c0)) as [-> | Hne].
    + intros _. exists c0. split; [| reflexivity].
      apply elem_of_app. right. apply list_elem_of_singleton. reflexivity.
    + rewrite assign_lookup_other by exact Hne. intros H.
      destruct (IH H) as (c & Hin & ->). exists c. split; [| reflexivity].
      apply elem_of_app. left. exact Hin.
Qed.

Lemma all_waypoints_insert (d : Routes) id r :
  d !! id = None ->
  all_waypoints (<[id := r]> d) ≡ₚ waypoints r ++ all_waypoints d.
Proof.
  intros Hd. unfold all_waypoints.
  rewrite (map_to_list_insert d id r Hd). reflexivity.
Qed.

(** One iteration adds one waypoint to the routes, whatever the driver. *)
Lemma all_waypoints_assign p c d :
  all_waypoints (assign p c d) ≡ₚ all_waypoints d ++ [waypoint_of p].
Proof.
  unfold assign. destruct (d !! driver_id_of c) as [r |] eqn:Hd.
  - rewrite <- (insert_delete_id d _ _ Hd) at 1.
    rewrite alter_insert_eq.
    rewrite all_waypoints_insert by apply lookup_delete_eq.
    rewrite <- (insert_delete_id d _ _ Hd) at 2.
    rewrite (all_waypoints_insert (delete (driver_id_of c) d))
      by apply lookup_delete_eq.
    cbn [append_waypoint waypoints].
    rewrite <- !app_assoc. apply Permutation_app_head, Permutation_app_comm.
  - rewrite alter_insert_eq, all_waypoints_insert by exact Hd.
    cbn [append_waypoint waypoints app]. apply Permutation_cons_append.
Qed.

(** The routes hold the waypoints of the points, each once. *)
Lemma all_waypoints_regroup pairs :
  all_waypoints (regroup pairs) ≡ₚ waypoint_of <$> pairs.*1.
Proof.
  induction pairs as [| [p c] pairs IH] using rev_ind.
  - unfold all_waypoints, regroup. cbn. rewrite map_to_list_empty. reflexivity.
  - rewrite regroup_snoc, all_waypoints_assign, IH, !fmap_app. reflexivity.
Qed.

(** No more routes than cluster ids. *)
Lemma regroup_size pairs (k : Z) :
  Forall (fun l => 0 <= l < k) pairs.*2 ->
  (size (regroup pairs) <= Z.to_nat k)%nat.
Proof.
  intros Hrange.
  rewrite <- (size_dom (D := gset string)).
  rewrite <- (length_seqZ 0 k), <- (length_fmap driver_id_of).
  rewrite <- (size_list_to_set (C := gset string)).
  - apply subseteq_size. intros id Hid.
    apply elem_of_dom in Hid. apply regroup_keys in Hid as (c & Hc & ->).
    apply elem_of_list_to_set, list_elem_of_fmap. exists c. split; [reflexivity |].
    apply elem_of_seqZ. rewrite Forall_forall in Hrange. apply Hrange in Hc. lia.
  - apply NoDup_fmap_2_strong; [| apply NoDup_seqZ].
    intros x y _ _. apply driver_id_of_inj.
Qed.

(** Every route has a waypoint. *)
Lemma regroup_nonempty pairs id r :
  regroup pairs !! id = Some r -> waypoints r <> [].
Proof.
  intros Hr.
  destruct (regroup_keys pairs id) as (c & Hc & ->); [eauto |].
  rewrite regroup_lookup, decide_True in Hr by exact Hc.
  injection Hr as <-. cbn. apply group_of_present. exact Hc.
Qed.

End Regrouping.

(** ** Geocoding a list of addresses *)

Section GeocodeEach.

Variable service : nat -> Address -> Response.
Variable random : nat -> Q.

(** The loop over the addresses never raises; it appends to [location_data]
    the points of the addresses that were found, in the order of the
    addresses; it looks every address of the list up, at least once and at
    most [retries] times, and does nothing but wait and look up. *)
Lemma geocode_each_total addrs : forall acc w,
  exists ld w',
    geocode_each service random addrs acc w = (inr (acc ++ ld), w')
    /\ geocoding_only w w'
    /\ Forall (fun p => stopover p = true) ld
    /\ location <$> ld `sublist_of` addrs
    /\ (calls w + length addrs <= calls w' <= calls w + retries * length addrs)%nat.
Proof.
  induction addrs as [| a addrs IH]; intros acc w.
  - exists [], w. cbn. rewrite app_nil_r. split; [reflexivity |].
    split; [apply geocoding_only_refl |]. split; [constructor |].
    split; [constructor | lia].
  - destruct (geocode_loop_total service random a (seq 0 retries) w)
      as (r & w1 & Hrun & Hc & Hg & Hp).
    rewrite length_seq in Hc. change (Nat.min 1 retries) with 1%nat in Hc.
    cbn [geocode_each]. unfold bind at 1, geocode_address. rewrite Hrun.
    destruct r as [p |].
    + destruct (IH (acc ++ [p]) w1) as (ld & w2 & Hrun2 & Hg2 & Hs & Hsub & Hc2).
      exists (p :: ld), w2. rewrite <- app_assoc in Hrun2.
      split; [exact Hrun2 |].
      split; [exact (geocoding_only_trans _ _ _ Hg Hg2) |].
      destruct (Hp p eq_refl) as [Hl Hst].
      split; [constructor; assumption |].
      split; [| unfold retries in *; cbn [length]; lia].
      cbn [fmap list_fmap]. rewrite Hl. apply sublist_skip. exact Hsub.
    + destruct (IH acc w1) as (ld & w2 & Hrun2 & Hg2 & Hs & Hsub & Hc2).
      exists ld, w2. split; [exact Hrun2 |].
      split; [exact (geocoding_only_trans _ _ _ Hg Hg2) |].
      split; [exact Hs |].
      split; [apply sublist_cons; exact Hsub |].
      unfold retries in *; cbn [length]; lia.
Qed.

Lemma geocode_each_from_empty addrs w :
  exists ld w',
    geocode_each service random addrs [] w = (inr ld, w')
    /\ geocoding_only w w'
    /\ Forall (fun p => stopover p = true) ld
    /\ location <$> ld `sublist_of` addrs
    /\ (calls w + length addrs <= calls w' <= calls w + retries * length addrs)%nat.
Proof. exact (geocode_each_total addrs [] w). Qed.

End GeocodeEach.

(** ** Clustering the located points *)

Section Clustering.

Variable sklearn : Z -> Z -> list Coords -> exn + list Z.

Lemma organize_world ld labels i d w : snd (organize ld i labels d w) = w.
Proof.
  destruct (Nat.le_gt_cases (length labels) (length (drop i ld))) as [H | H].
  - rewrite organize_ok by exact H. reflexivity.
  - rewrite (organize_short ld labels i d w H). reflexivity.
Qed.

(** With enough points, the script calls [fit_predict] and regroups. *)
Lemma cluster_located_fit ld k w :
  ¬ Z.of_nat (length ld) < k ->
  cluster_located sklearn ld k w
  = (clusters <~ kmeans_fit_predict sklearn k 42 (map coords ld) ;;
     organize ld 0 clusters ∅) w.
Proof.
  intros Hk. unfold cluster_located.
  destruct (Z.ltb_spec (Z.of_nat (length ld)) k); [lia | reflexivity].
Qed.

Lemma cluster_located_ok ld k w labels :
  ¬ Z.of_nat (length ld) < k ->
  sklearn k 42 (map coords ld) = inr labels ->
  (length labels <= length ld)%nat ->
  cluster_located sklearn ld k w
  = (inr (regroup (zip ld labels)), after_fit k (map coords ld) w).
Proof.
  intros Hk Hfit Hlen. rewrite cluster_located_fit by exact Hk.
  unfold bind, kmeans_fit_predict. rewrite Hfit.
  rewrite organize_ok by (rewrite drop_0; exact Hlen).
  rewrite drop_0. reflexivity.
Qed.

(** What a successful run of lines 47-70 went through. *)
Lemma cluster_located_inv ld k w routes w' :
  cluster_located sklearn ld k w = (inr routes, w') ->
  exists labels,
    ¬ Z.of_nat (length ld) < k
    /\ sklearn k 42 (map coords ld) = inr labels
    /\ (length labels <= length ld)%nat
    /\ routes = regroup (zip ld labels)
    /\ w' = after_fit k (map coords ld) w.
Proof.
  unfold cluster_located.
  destruct (Z.ltb_spec (Z.of_nat (length ld)) k) as [Hlt | Hge];
    [intros [=] |].
  unfold bind, kmeans_fit_predict.
  destruct (sklearn k 42 (map coords ld)) as [e | labels] eqn:Hfit;
    [intros [=] |].
  destruct (Nat.le_gt_cases (length labels) (length (drop 0 ld))) as [H | H].
  - rewrite organize_ok by exact H. rewrite drop_0 in *.
    intros [= <- <-]. exists labels. repeat split; try assumption; lia.
  - rewrite (organize_short ld labels 0 ∅ _ H). intros [=].
Qed.

End Clustering.

(** ** The pipeline *)

Section PipelineClaims.

Variable service : nat -> Address -> Response.
Variable random : nat -> Q.
Variable sklearn : Z -> Z -> list Coords -> exn + list Z.

Lemma cluster_addresses_located addrs k w ld w1 :
  geocode_each service random addrs [] w = (inr ld, w1) ->
  cluster_addresses service random sklearn addrs k w
  = cluster_located sklearn ld k w1.
Proof. intros H. unfold cluster_addresses, bind. rewrite H. reflexivity. Qed.

(** What a successful run of [cluster_addresses] went through. *)
Lemma cluster_addresses_inv addrs k w routes w' :
  cluster_addresses service random sklearn addrs k w = (inr routes, w') ->
  exists ld w1 labels,
    geocode_each service random addrs [] w = (inr ld, w1)
    /\ location <$> ld `sublist_of` addrs
    /\ ¬ Z.of_nat (length ld) < k
    /\ sklearn k 42 (map coords ld) = inr labels
    /\ (length labels <= length ld)%nat
    /\ routes = regroup (zip ld labels).
Proof.
  intros Hrun.
  destruct (geocode_each_from_empty service random addrs w)
    as (ld & w1 & Hgeo & _ & _ & Hsub & _).
  rewrite (cluster_addresses_located _ _ _ _ _ Hgeo) in Hrun.
  apply cluster_located_inv in Hrun as (labels & Hk & Hfit & Hlen & -> & _).
  exists ld, w1, labels. auto 10.
Qed.

Lemma cluster_addresses_raises addrs k w w1 ld :
  geocode_each service random addrs [] w = (inr ld, w1) ->
  Z.of_nat (length ld) < k ->
  cluster_addresses service random sklearn addrs k w
  = (inl (ValueError (not_enough_message (length ld) k)), w1).
Proof.
  intros Hgeo Hlt.
  rewrite (cluster_addresses_located _ _ _ _ _ Hgeo). unfold cluster_located.
  destruct (Z.ltb_spec (Z.of_nat (length ld)) k); [reflexivity | lia].
Qed.

(** When [cluster_addresses] raises, the [try] statement prints the error
    and does nothing else. *)
Lemma export_routes_raises addrs k w w1 e :
  cluster_addresses service random sklearn addrs k w = (inl e, w1) ->
  export_routes service random sklearn addrs k w
  = (inr tt, mkWorld (calls w1) (draws w1)
               (log w1 ++ [Print ("Error: " +:+ str_exn e)])).
Proof.
  intros Hrun. unfold export_routes, try_except, bind at 1. rewrite Hrun.
  reflexivity.
Qed.

Lemma geocoding_then_print_quiet w w1 text :
  geocoding_only w w1 ->
  exists evs, log w1 ++ [Print text] = log w ++ evs /\ Forall quiet_event evs.
Proof.
  intros (evs & -> & Hevs). exists (evs ++ [Print text]).
  split; [rewrite app_assoc; reflexivity |].
  apply Forall_app. split.
  - eapply Forall_impl; [exact Hevs |]. intros [] H; cbn in *; tauto.
  - repeat constructor.
Qed.

(** C2. When fewer addresses are geocoded than there are drivers,
    [cluster_addresses] raises the [ValueError] whose message holds both
    counts; up to then the run has only waited and looked addresses up, so
    that no clustering took place; and the pipeline then only prints the
    error: it neither clusters nor opens or writes the output file. *)
Theorem cluster_addresses_not_enough (addrs : list Address) (k : Z)
    (w w1 : World) (ld : list GeocodedPoint) :
  geocode_each service random addrs [] w = (inr ld, w1) ->
  Z.of_nat (length ld) < k ->
  let message :=
    "Not enough valid addresses (" +:+ str_int (Z.of_nat (length ld))
      +:+ ") for " +:+ str_int k +:+ " drivers" in
  cluster_addresses service random sklearn addrs k w
  = (inl (ValueError message), w1)
  /\ geocoding_only w w1
  /\ export_routes service random sklearn addrs k w
     = (inr tt, mkWorld (calls w1) (draws w1)
                  (log w1 ++ [Print ("Error: " +:+ message)]))
  /\ exists evs,
       log (snd (export_routes service random sklearn addrs k w)) = log w ++ evs
       /\ Forall quiet_event evs.
Proof.
  intros Hgeo Hlt message.
  pose proof (cluster_addresses_raises addrs k w w1 ld Hgeo Hlt) as Hrun.
  pose proof (export_routes_raises addrs k w w1 _ Hrun) as Hexp.
  assert (Hg : geocoding_only w w1).
  { destruct (geocode_each_from_empty service random addrs w)
      as (ld' & w1' & Hgeo' & Hg & _).
    rewrite Hgeo in Hgeo'. injection Hgeo' as _ <-. exact Hg. }
  split; [exact Hrun |]. split; [exact Hg |]. split; [exact Hexp |].
  rewrite Hexp. cbn [snd log].
  apply geocoding_then_print_quiet. exact Hg.
Qed.

(** C9. For a driver count of 0 or less the validation of line 47 never
    fires: whatever the addresses, the run goes on to call [fit_predict] with
    that count. *)
Theorem nonpositive_count_reaches_kmeans (addrs : list Address) (k : Z)
    (w : World) :
  k <= 0 ->
  exists ld w1,
    geocode_each service random addrs [] w = (inr ld, w1)
    /\ ¬ Z.of_nat (length ld) < k
    /\ cluster_addresses service random sklearn addrs k w
       = (clusters <~ kmeans_fit_predict sklearn k 42 (map coords ld) ;;
          organize ld 0 clusters ∅) w1
    /\ log (snd (cluster_addresses service random sklearn addrs k w))
       = log w1 ++ [FitPredict k 42 (map coords ld)].
Proof.
  intros Hk.
  destruct (geocode_each_from_empty service random addrs w)
    as (ld & w1 & Hgeo & _).
  exists ld, w1. split; [exact Hgeo |].
  assert (Hge : ¬ Z.of_nat (length ld) < k) by lia.
  split; [exact Hge |].
  rewrite (cluster_addresses_located _ _ _ _ _ Hgeo).
  rewrite cluster_located_fit by exact Hge.
  split; [reflexivity |].
  unfold bind, kmeans_fit_predict.
  destruct (sklearn k 42 (map coords ld)) as [e | labels]; [reflexivity |].
  rewrite organize_world. reflexivity.
Qed.

Lemma group_of_sublist pairs c :
  wp_location <$> group_of pairs c `sublist_of` location <$> pairs.*1.
Proof.
  unfold group_of. induction pairs as [| [p l] pairs IH]; [constructor |].
  cbn [fmap list_fmap fst]. destruct (decide (l = c)) as [-> | Hne].
  - rewrite filter_cons_True by reflexivity.
    cbn [fmap list_fmap fst waypoint_of wp_location].
    apply sublist_skip. exact IH.
  - rewrite filter_cons_False by (cbn; exact Hne). apply sublist_cons. exact IH.
Qed.

Lemma zip_fst_sublist {A B} (l : list A) (k : list B) :
  (zip l k).*1 `sublist_of` l.
Proof.
  revert k. induction l as [| x l IH]; intros [| y k]; cbn;
    try constructor; [apply sublist_nil_l | apply IH].
Qed.

Lemma group_of_stopover pairs c x :
  x ∈ group_of pairs c -> wp_stopover x = true.
Proof.
  unfold group_of. intros Hx. apply list_elem_of_fmap in Hx as (p & -> & _).
  reflexivity.
Qed.

(** C1, as the code has it. For a driver count between 1 and the number [N]
    of geocoded points, and a clustering routine that accepts such counts and
    returns one label in [[0, num_drivers)] per row, [cluster_addresses]
    returns routes: at most [num_drivers] of them, none empty, and their
    waypoints are, up to order, the waypoints of the geocoded points, one for
    each point. So an address appears as often as it was geocoded: once when
    the geocoded addresses are pairwise distinct. *)
Theorem cluster_addresses_partition (addrs : list Address) (k : Z)
    (w w1 : World) (ld : list GeocodedPoint) :
  labels_per_row sklearn ->
  accepts_valid_counts sklearn ->
  geocode_each service random addrs [] w = (inr ld, w1) ->
  1 <= k <= Z.of_nat (length ld) ->
  exists routes w',
    cluster_addresses service random sklearn addrs k w = (inr routes, w')
    /\ (size routes <= Z.to_nat k)%nat
    /\ (forall id r, routes !! id = Some r -> waypoints r <> [])
    /\ all_waypoints routes ≡ₚ waypoint_of <$> ld
    /\ (NoDup (location <$> ld) ->
        NoDup (wp_location <$> all_waypoints routes)).
Proof.
  intros Hrows Haccepts Hgeo Hk.
  destruct (Haccepts k 42 (map coords ld)) as [labels Hfit];
    [rewrite length_map; exact Hk |].
  destruct (Hrows _ _ _ _ Hfit) as [Hlen Hrange].
  rewrite length_map in Hlen.
  exists (regroup (zip ld labels)), (after_fit k (map coords ld) w1).
  split.
  { rewrite (cluster_addresses_located _ _ _ _ _ Hgeo).
    apply cluster_located_ok; [lia | exact Hfit | lia]. }
  assert (Hperm : all_waypoints (regroup (zip ld labels)) ≡ₚ waypoint_of <$> ld).
  { rewrite all_waypoints_regroup, fst_zip by lia. reflexivity. }
  split; [apply regroup_size; rewrite snd_zip by lia; exact Hrange |].
  split; [apply regroup_nonempty |].
  split; [exact Hperm |].
  intros Hnd. rewrite Hperm, <- list_fmap_compose.
  exact Hnd.
Qed.

(** C4. In every route that [cluster_addresses] returns, the waypoints are
    those of the geocoded points of one cluster, in the order of the points,
    which is the order of the input: the locations of a route form a
    subsequence of the list of addresses. *)
Theorem waypoints_keep_input_order (addrs : list Address) (k : Z)
    (w w' : World) (routes : Routes) :
  cluster_addresses service random sklearn addrs k w = (inr routes, w') ->
  exists ld w1 labels,
    geocode_each service random addrs [] w = (inr ld, w1)
    /\ sklearn k 42 (map coords ld) = inr labels
    /\ location <$> ld `sublist_of` addrs
    /\ forall id r,
         routes !! id = Some r ->
         (exists c, id = driver_id_of c
                    /\ waypoints r = group_of (zip ld labels) c)
         /\ wp_location <$> waypoints r `sublist_of` location <$> ld
         /\ wp_location <$> waypoints r `sublist_of` addrs.
Proof.
  intros Hrun.
  destruct (cluster_addresses_inv _ _ _ _ _ Hrun)
    as (ld & w1 & labels & Hgeo & Hsub & _ & Hfit & Hlen & ->).
  exists ld, w1, labels. split; [exact Hgeo |]. split; [exact Hfit |].
  split; [exact Hsub |]. intros id r Hr.
  destruct (regroup_keys (zip ld labels) id) as (c & Hc & ->); [eauto |].
  rewrite regroup_lookup, decide_True in Hr by exact Hc.
  injection Hr as <-. cbn [waypoints].
  assert (Hs : wp_location <$> group_of (zip ld labels) c
               `sublist_of` location <$> ld).
  { etransitivity; [apply group_of_sublist |].
    apply fmap_sublist, zip_fst_sublist. }
  split; [exists c; split; reflexivity |]. split; [exact Hs |].
  etransitivity; [exact Hs | exact Hsub].
Qed.

(** C5. Cluster id [c] goes to the identifier ["driver_"] followed by
    [c + 1], so id 0 goes to ["driver_1"]; in the routes that
    [cluster_addresses] returns, the identifier of [c] is a key exactly when
    some geocoded point got the label [c], and there is no other key. *)
Theorem driver_ids_of_clusters (addrs : list Address) (k : Z)
    (w w' : World) (routes : Routes) :
  cluster_addresses service random sklearn addrs k w = (inr routes, w') ->
  exists ld w1 labels,
    geocode_each service random addrs [] w = (inr ld, w1)
    /\ sklearn k 42 (map coords ld) = inr labels
    /\ (forall c, driver_id_of c = "driver_" +:+ str_int (c + 1))
    /\ driver_id_of 0 = "driver_1"
    /\ (forall c,
          is_Some (routes !! driver_id_of c)
          <-> exists i p, ld !! i = Some p /\ labels !! i = Some c)
    /\ (forall id,
          is_Some (routes !! id)
          -> exists c i p, id = driver_id_of c
                           /\ ld !! i = Some p /\ labels !! i = Some c).
Proof.
  intros Hrun.
  destruct (cluster_addresses_inv _ _ _ _ _ Hrun)
    as (ld & w1 & labels & Hgeo & _ & _ & Hfit & Hlen & ->).
  exists ld, w1, labels. split; [exact Hgeo |]. split; [exact Hfit |].
  split; [reflexivity |]. split; [reflexivity |].
  assert (Hmem : forall c,
            c ∈ (zip ld labels).*2
            <-> exists i p, ld !! i = Some p /\ labels !! i = Some c).
  { intros c. rewrite snd_zip by lia. rewrite list_elem_of_lookup.
    split.
    - intros [i Hi]. exists i.
      destruct (lookup_lt_is_Some_2 ld i) as [p Hp];
        [apply lookup_lt_Some in Hi; lia |].
      exists p. auto.
    - intros (i & p & _ & Hi). exists i. exact Hi. }
  split.
  - intros c. rewrite regroup_lookup, <- Hmem.
    destruct (decide (c ∈ (zip ld labels).*2)) as [Hin | Hnin].
    + split; [intros _; exact Hin | intros _; eauto].
    + split; [intros [? [=]] | tauto].
  - intros id Hid. apply regroup_keys in Hid as (c & Hc & ->).
    apply Hmem in Hc as (i & p & Hp & Hi). exists c, i, p. auto.
Qed.

(** C8. Every point that [geocode_address] returns, and every waypoint of
    every route that [cluster_addresses] returns, has [stopover] true. *)
Theorem stopover_always_true :
  (forall (a : Address) (w w' : World) (p : GeocodedPoint),
     geocode_address service random a w = (inr (Some p), w') ->
     stopover p = true)
  /\ (forall (addrs : list Address) (k : Z) (w w' : World) (routes : Routes),
        cluster_addresses service random sklearn addrs k w = (inr routes, w') ->
        forall id r x,
          routes !! id = Some r -> x ∈ waypoints r -> wp_stopover x = true).
Proof.
  split.
  - intros a w w' p Hrun.
    apply (geocode_address_stopover service random a w w' p Hrun).
  - intros addrs k w w' routes Hrun id r x Hr Hx.
    destruct (cluster_addresses_inv _ _ _ _ _ Hrun)
      as (ld & w1 & labels & _ & _ & _ & _ & _ & ->).
    destruct (regroup_keys (zip ld labels) id) as (c & Hc & ->); [eauto |].
    rewrite regroup_lookup, decide_True in Hr by exact Hc.
    injection Hr as <-. apply (group_of_stopover _ _ _ Hx).
Qed.

(** [main] with more drivers than sample addresses: whatever the service
    answers, it prints the error and writes no file. *)
Lemma main_too_many_drivers (k : Z) (w : World) :
  Z.of_nat (length addresses) < k ->
  exists evs,
    log (snd (main service random sklearn k w)) = log w ++ evs
    /\ Forall quiet_event evs.
Proof.
  intros Hk.
  destruct (geocode_each_from_empty service random addresses w)
    as (ld & w1 & Hgeo & Hg & _ & Hsub & _).
  apply sublist_length in Hsub. rewrite length_fmap in Hsub.
  unfold main.
  rewrite (export_routes_raises addresses k w w1 _
             (cluster_addresses_raises addresses k w w1 ld Hgeo ltac:(lia))).
  cbn [snd log]. apply geocoding_then_print_quiet. exact Hg.
Qed.

End PipelineClaims.

(** ** Two runs *)


(** ** The statements on concrete runs *)

Lemma demo_labels_per_row : labels_per_row Demo.sklearn.
Proof.
  intros k seed X labels. unfold Demo.sklearn.
  destruct (Z.leb_spec 1 k) as [H1 |]; [| intros [=]].
  destruct (Z.leb_spec k (Z.of_nat (length X))); [| intros [=]].
  cbn [andb]. intros [= <-]. split; [apply length_map |].
  apply Forall_forall. intros l Hl. apply list_elem_of_In, in_map_iff in Hl.
  destruct Hl as (c & <- & _). destruct (Qle_bool 50 c.1); lia.
Qed.

Lemma demo_accepts_valid_counts : accepts_valid_counts Demo.sklearn.
Proof.
  intros k seed X [H1 H2]. unfold Demo.sklearn.
  destruct (Z.leb_spec 1 k); [| lia].
  destruct (Z.leb_spec k (Z.of_nat (length X))); [| lia].
  eexists. reflexivity.
Qed.

Lemma cluster_addresses_partition_witness :
  exists routes w',
    cluster_addresses Demo.service Demo.random Demo.sklearn
      ["A"; "C"; "nowhere"; "B"; "D"] 2 Demo.w0 = (inr routes, w')
    /\ (size routes <= Z.to_nat 2)%nat
    /\ (forall id r, routes !! id = Some r -> waypoints r <> [])
    /\ all_waypoints routes
       ≡ₚ waypoint_of <$> (Demo.located ["A"; "C"; "nowhere"; "B"; "D"]).1
    /\ (NoDup (location <$> (Demo.located ["A"; "C"; "nowhere"; "B"; "D"]).1) ->
        NoDup (wp_location <$> all_waypoints routes)).
Proof.
  apply (cluster_addresses_partition Demo.service Demo.random Demo.sklearn
           ["A"; "C"; "nowhere"; "B"; "D"] 2 Demo.w0
           (Demo.located ["A"; "C"; "nowhere"; "B"; "D"]).2
           (Demo.located ["A"; "C"; "nowhere"; "B"; "D"]).1).
  - apply demo_labels_per_row.
  - apply demo_accepts_valid_counts.
  - vm_compute. reflexivity.
  - vm_compute. split; discriminate.
Defined.

(** C1, as the specification has it, fails on a list that names an address
    twice: both occurrences are geocoded, and the address then appears twice
    in the routes, not once. *)
Lemma duplicate_address_appears_twice :
  ~ (forall (service : nat -> Address -> Response) (random : nat -> Q)
            (sklearn : Z -> Z -> list Coords -> exn + list Z)
            (addrs : list Address) (k : Z) (w w1 w' : World)
            (ld : list GeocodedPoint) (routes : Routes),
       labels_per_row sklearn ->
       accepts_valid_counts sklearn ->
       geocode_each service random addrs [] w = (inr ld, w1) ->
       1 <= k <= Z.of_nat (length ld) ->
       cluster_addresses service random sklearn addrs k w = (inr routes, w') ->
       forall a, a ∈ location <$> ld ->
         length (filter (fun x => wp_location x = a) (all_waypoints routes))
         = 1%nat).
Proof.
  intros H.
  specialize (H Demo.service Demo.random Demo.sklearn ["A"; "A"] 1 Demo.w0
                (Demo.located ["A"; "A"]).2 (Demo.routed ["A"; "A"] 1).2
                (Demo.located ["A"; "A"]).1 (Demo.routed ["A"; "A"] 1).1
                demo_labels_per_row demo_accepts_valid_counts).
  assert (Hgeo : geocode_each Demo.service Demo.random ["A"; "A"] [] Demo.w0
                 = (inr (Demo.located ["A"; "A"]).1, (Demo.located ["A"; "A"]).2))
    by (vm_compute; reflexivity).
  assert (Hk : 1 <= 1 <= Z.of_nat (length (Demo.located ["A"; "A"]).1))
    by (vm_compute; split; discriminate).
  assert (Hrun : cluster_addresses Demo.service Demo.random Demo.sklearn
                   ["A"; "A"] 1 Demo.w0
                 = (inr (Demo.routed ["A"; "A"] 1).1, (Demo.routed ["A"; "A"] 1).2))
    by (vm_compute; reflexivity).
  specialize (H Hgeo Hk Hrun "A").
  assert (Hin : "A" ∈ location <$> (Demo.located ["A"; "A"]).1)
    by (vm_compute; left).
  specialize (H Hin). vm_compute in H. discriminate H.
Qed.

Lemma cluster_addresses_not_enough_witness :
  cluster_addresses Demo.service Demo.random Demo.sklearn
    ["A"; "nowhere"; "B"; "offline"; "C"] 5 Demo.w0
  = (inl (ValueError "Not enough valid addresses (3) for 5 drivers"),
     (Demo.located ["A"; "nowhere"; "B"; "offline"; "C"]).2)
  /\ log (snd (export_routes Demo.service Demo.random Demo.sklearn
                 ["A"; "nowhere"; "B"; "offline"; "C"] 5 Demo.w0))
     = [Sleep 1; Geocode "A";
        Sleep 1; Geocode "nowhere"; Sleep 1; Geocode "nowhere";
        Sleep 1; Geocode "nowhere";
        Sleep 1; Geocode "B";
        Sleep 1; Geocode "offline";
        Sleep 1; Geocode "C";
        Print "Error: Not enough valid addresses (3) for 5 drivers"].
Proof.
  destruct (cluster_addresses_not_enough Demo.service Demo.random Demo.sklearn
              ["A"; "nowhere"; "B"; "offline"; "C"] 5 Demo.w0
              (Demo.located ["A"; "nowhere"; "B"; "offline"; "C"]).2
              (Demo.located ["A"; "nowhere"; "B"; "offline"; "C"]).1)
    as (Hrun & _ & Hexp & _).
  - vm_compute. reflexivity.
  - vm_compute. reflexivity.
  - split; [exact Hrun |]. rewrite Hexp. reflexivity.
Defined.

Lemma nonpositive_count_reaches_kmeans_witness :
  exists ld w1,
    geocode_each Demo.service Demo.random ["A"; "B"] [] Demo.w0 = (inr ld, w1)
    /\ ¬ Z.of_nat (length ld) < 0
    /\ cluster_addresses Demo.service Demo.random Demo.sklearn ["A"; "B"] 0 Demo.w0
       = (clusters <~ kmeans_fit_predict Demo.sklearn 0 42 (map coords ld) ;;
          organize ld 0 clusters ∅) w1
    /\ log (snd (cluster_addresses Demo.service Demo.random Demo.sklearn
                   ["A"; "B"] 0 Demo.w0))
       = log w1 ++ [FitPredict 0 42 (map coords ld)].
Proof.
  apply (nonpositive_count_reaches_kmeans Demo.service Demo.random Demo.sklearn
           ["A"; "B"] 0 Demo.w0).
  lia.
Defined.

Lemma waypoints_keep_input_order_witness :
  (Demo.routed ["A"; "C"; "nowhere"; "B"; "D"; "A"] 2).1 !! "driver_1"
  = Some (mkRoute [mkWaypoint "A" true; mkWaypoint "B" true; mkWaypoint "A" true])
  /\ ["A"; "B"; "A"] `sublist_of` ["A"; "C"; "nowhere"; "B"; "D"; "A"].
Proof.
  destruct (waypoints_keep_input_order Demo.service Demo.random Demo.sklearn
              ["A"; "C"; "nowhere"; "B"; "D"; "A"] 2 Demo.w0
              (Demo.routed ["A"; "C"; "nowhere"; "B"; "D"; "A"] 2).2
              (Demo.routed ["A"; "C"; "nowhere"; "B"; "D"; "A"] 2).1)
    as (ld & w1 & labels & _ & _ & _ & H).
  - vm_compute. reflexivity.
  - assert (Hr : (Demo.routed ["A"; "C"; "nowhere"; "B"; "D"; "A"] 2).1 !! "driver_1"
                 = Some (mkRoute [mkWaypoint "A" true; mkWaypoint "B" true;
                                  mkWaypoint "A" true]))
      by (vm_compute; reflexivity).
    split; [exact Hr |]. exact (proj2 (proj2 (H _ _ Hr))).
Defined.

Lemma driver_ids_of_clusters_witness :
  is_Some ((Demo.routed ["A"; "C"; "nowhere"; "B"; "D"; "A"] 2).1 !! "driver_1")
  /\ forall id,
       is_Some ((Demo.routed ["A"; "C"; "nowhere"; "B"; "D"; "A"] 2).1 !! id) ->
       exists c, id = driver_id_of c.
Proof.
  destruct (driver_ids_of_clusters Demo.service Demo.random Demo.sklearn
              ["A"; "C"; "nowhere"; "B"; "D"; "A"] 2 Demo.w0
              (Demo.routed ["A"; "C"; "nowhere"; "B"; "D"; "A"] 2).2
              (Demo.routed ["A"; "C"; "nowhere"; "B"; "D"; "A"] 2).1)
    as (ld & w1 & labels & _ & _ & _ & _ & _ & Hkeys).
  - vm_compute. reflexivity.
  - split.
    + vm_compute. eexists. reflexivity.
    + intros id Hid. destruct (Hkeys id Hid) as (c & _ & _ & -> & _).
      exists c. reflexivity.
Defined.

Lemma stopover_always_true_witness :
  stopover (mkPoint "A" true (53%Q, (-113)%Q)) = true
  /\ forall id r x,
       (Demo.routed ["A"; "C"; "nowhere"; "B"; "D"; "A"] 2).1 !! id = Some r ->
       x ∈ waypoints r -> wp_stopover x = true.
Proof.
  destruct (stopover_always_true Demo.service Demo.random Demo.sklearn)
    as [Hpoint Hroutes].
  split.
  - apply (Hpoint "A" Demo.w0 (mkWorld 1 0 [Sleep 1; Geocode "A"])).
    vm_compute. reflexivity.
  - apply (Hroutes ["A"; "C"; "nowhere"; "B"; "D"; "A"] 2 Demo.w0
             (Demo.routed ["A"; "C"; "nowhere"; "B"; "D"; "A"] 2).2).
    vm_compute. reflexivity.
Defined.



(** ** More on the geocoder: what a call does to the service and the clock *)

Section GeocoderBehaviour.

Variable service : nat -> Address -> Response.
Variable random : nat -> Q.

Lemma limited_weaken evs :
  limited false evs = true -> forall b, limited b evs = true.
Proof.
  destruct evs as [| [] rest]; cbn; intros H b; try exact H.
  discriminate H.
Qed.

Lemma limited_app x : forall b y,
  limited b x = true -> limited false y = true -> limited b (x ++ y) = true.
Proof.
  induction x as [| e x IH]; intros b y Hx Hy.
  - cbn. apply limited_weaken. exact Hy.
  - destruct e; cbn in *; try (apply IH; assumption).
    apply andb_true_iff in Hx as [-> Hx]. cbn. apply IH; assumption.
Qed.

(** The three ways an iteration can go: it returns what it made of the
    answer; it found nothing and falls through; it timed out, waited and
    falls through. *)
Lemma geocode_attempt_cases a i w :
  (geocode_attempt service random a i w
   = (inr (Return (answer_of a (service (calls w) a))), after_attempt a w)
   /\ service (calls w) a <> NoResult)
  \/ (geocode_attempt service random a i w = (inr Next, after_attempt a w)
      /\ service (calls w) a = NoResult)
  \/ (geocode_attempt service random a i w = (inr Next, after_backoff random a i w)
      /\ service (calls w) a = Raises GeocoderTimedOut
      /\ (i < retries - 1)%nat).
Proof.
  destruct (service (calls w) a) as [lat lon | | e] eqn:Hs.
  - left. split; [| discriminate].
    apply (geocode_attempt_found _ _ _ _ _ _ _ Hs).
  - right. left. split; [| reflexivity].
    apply (geocode_attempt_no_result _ _ _ _ _ Hs).
  - destruct (decide (e = GeocoderTimedOut)) as [-> | He].
    + destruct (Nat.lt_ge_cases i (retries - 1)) as [Hi | Hi].
      * right. right. split; [| split; [reflexivity | exact Hi]].
        apply (geocode_attempt_timeout _ _ _ _ _ Hs Hi).
      * left. split; [| discriminate].
        apply (geocode_attempt_last_timeout _ _ _ _ _ Hs Hi).
    + left. split; [| discriminate].
      rewrite (geocode_attempt_error _ _ _ _ _ _ Hs He).
      destruct e; [congruence | reflexivity ..].
Qed.

(** The last [n] iterations of the loop of [geocode_address]. *)
Lemma geocode_loop_shape a : forall n i w,
  (i + n = retries)%nat -> (1 <= n)%nat ->
  exists r w' evs,
    geocode_loop service random a (seq i n) w = (inr r, w')
    /\ log w' = log w ++ evs ++ [Geocode a]
    /\ limited false (evs ++ [Geocode a]) = true
    /\ r = answer_of a (service (Nat.pred (calls w')) a)
    /\ (calls w < calls w' <= calls w + n)%nat
    /\ (draws w <= draws w' <= draws w + (n - 1))%nat.
Proof.
  induction n as [| n IH]; intros i w Hin Hn; [lia |].
  cbn [seq geocode_loop]. unfold bind at 1.
  destruct (geocode_attempt_cases a i w)
    as [(Hrun & _) | [(Hrun & Hs) | (Hrun & Hs & Hi)]]; rewrite Hrun.
  - exists (answer_of a (service (calls w) a)), (after_attempt a w), [Sleep 1].
    cbn. repeat split; lia.
  - destruct n as [| n].
    + exists None, (after_attempt a w), [Sleep 1].
      cbn. rewrite Hs. repeat split; lia.
    + destruct (IH (S i) (after_attempt a w)) as (r & w' & evs & H1 & H2 & H3 & H4 & H5 & H6);
        [lia | lia |].
      exists r, w', ([Sleep 1; Geocode a] ++ evs).
      cbn [calls draws log after_attempt] in *.
      split; [exact H1 |].
      split; [rewrite H2, <- !app_assoc; reflexivity |].
      split; [rewrite <- app_assoc; apply limited_app; [reflexivity | exact H3] |].
      split; [exact H4 |]. split; lia.
  - unfold retries in *.
    destruct (IH (S i) (after_backoff random a i w))
      as (r & w' & evs & H1 & H2 & H3 & H4 & H5 & H6); [lia | lia |].
    exists r, w',
      ([Sleep 1; Geocode a; Sleep (backoff_wait i (random (draws w)))] ++ evs).
    cbn [calls draws log after_backoff] in *.
    split; [exact H1 |].
    split; [rewrite H2, <- !app_assoc; reflexivity |].
    split.
    { rewrite <- app_assoc. apply limited_app; [reflexivity |].
      exact H3. }
    split; [exact H4 |]. split; lia.
Qed.

Lemma sleep_cap_ge_1 n : (1 <= n)%nat -> (1 <= sleep_cap n)%Q.
Proof. destruct n as [| [| [| n]]]; cbn; intros H; [lia | lra ..]. Qed.

(** Over its last [n] iterations the loop sleeps at least a second and at
    most [sleep_cap n] seconds, when the draws are in [[0, 1]]. *)
Lemma geocode_loop_sleep a :
  (forall m, (0 <= random m)%Q /\ (random m <= 1)%Q) ->
  forall n i w,
    (i + n = retries)%nat -> (1 <= n)%nat ->
    exists evs,
      log (snd (geocode_loop service random a (seq i n) w)) = log w ++ evs
      /\ (1 <= sleep_total evs)%Q
      /\ (sleep_total evs <= sleep_cap n)%Q.
Proof.
  intros Hrandom.
  induction n as [| n IH]; intros i w Hin Hn; [lia |].
  cbn [seq geocode_loop]. unfold bind at 1.
  destruct (geocode_attempt_cases a i w)
    as [(Hrun & _) | [(Hrun & Hs) | (Hrun & Hs & Hi)]]; rewrite Hrun.
  - exists [Sleep 1; Geocode a]. split; [reflexivity |].
    pose proof (sleep_cap_ge_1 (S n) Hn). cbn [sleep_total]. split; lra.
  - destruct n as [| n].
    + exists [Sleep 1; Geocode a]. split; [reflexivity |].
      cbn. split; lra.
    + destruct (IH (S i) (after_attempt a w)) as (evs & H1 & H2 & H3);
        [lia | lia |].
      exists ([Sleep 1; Geocode a] ++ evs).
      split; [rewrite H1; cbn [log after_attempt]; rewrite <- app_assoc; reflexivity |].
      cbn [app sleep_total].
      unfold retries in Hin.
      destruct n as [| [| n]]; [| | lia]; cbn [sleep_cap] in *; split; lra.
  - unfold retries in *.
    destruct (IH (S i) (after_backoff random a i w)) as (evs & H1 & H2 & H3);
      [lia | lia |].
    exists ([Sleep 1; Geocode a; Sleep (backoff_wait i (random (draws w)))] ++ evs).
    split; [rewrite H1; cbn [log after_backoff]; rewrite <- app_assoc; reflexivity |].
    cbn [app sleep_total].
    destruct (Hrandom (draws w)) as [Hr0 Hr1].
    assert (Hi' : (i = 0 /\ n = 2)%nat \/ (i = 1 /\ n = 1)%nat) by lia.
    destruct Hi' as [[-> ->] | [-> ->]]; cbn [sleep_cap] in *.
    + destruct (backoff_wait_bounds 0 (random (draws w))) as [Hlo Hhi];
        [lia | assumption .. |].
      change (inject_Z (2 ^ Z.of_nat 0)) with 1%Q in Hlo.
      change (inject_Z (2 ^ Z.of_nat 0 + 1)) with 2%Q in Hhi. split; lra.
    + destruct (backoff_wait_bounds 1 (random (draws w))) as [Hlo Hhi];
        [lia | assumption .. |].
      change (inject_Z (2 ^ Z.of_nat 1)) with 2%Q in Hlo.
      change (inject_Z (2 ^ Z.of_nat 1 + 1)) with 3%Q in Hhi. split; lra.
Qed.

(** X1. A call of [geocode_address] always ends with a lookup (a backoff wait
    is always followed by another attempt), and the answer of that last
    lookup alone decides the result: the point of the address with the
    coordinates found, or absent. *)
Theorem geocode_address_last_lookup (a : Address) (w : World) :
  exists r w' evs,
    geocode_address service random a w = (inr r, w')
    /\ log w' = log w ++ evs ++ [Geocode a]
    /\ (calls w < calls w')%nat
    /\ r = answer_of a (service (Nat.pred (calls w')) a).
Proof.
  destruct (geocode_loop_shape a retries 0 w)
    as (r & w' & evs & H1 & H2 & _ & H4 & H5 & _); [reflexivity | unfold retries; lia |].
  exists r, w', evs. unfold geocode_address. repeat split; try assumption; lia.
Qed.

(** X2. With draws of [random.random()] in [[0, 1]], a call of
    [geocode_address] sleeps at least 1 second and at most 8 seconds in all
    (three waits of 1 second and the backoff waits of at most 2 and 3
    seconds). *)
Theorem geocode_address_sleep_bounds (a : Address) (w : World) :
  (forall m, (0 <= random m)%Q /\ (random m <= 1)%Q) ->
  exists evs,
    log (snd (geocode_address service random a w)) = log w ++ evs
    /\ (1 <= sleep_total evs)%Q
    /\ (sleep_total evs <= 8)%Q.
Proof.
  intros Hrandom.
  destruct (geocode_loop_sleep a Hrandom retries 0 w) as (evs & H1 & H2 & H3);
    [reflexivity | unfold retries; lia |].
  exists evs. unfold geocode_address. auto.
Qed.

End GeocoderBehaviour.

(** ** The geocoder, lookup by lookup *)

Section GeocoderLookups.

Variable service : nat -> Address -> Response.
Variable random : nat -> Q.

(** What the [j]-th lookup of a run of the last [n] iterations does to the
    run, by its answer: a found address and a failure that is no timeout end
    the run there; nothing found and a timeout lead to another lookup, unless
    the iteration was the last one. *)
Lemma geocode_loop_lookup a : forall n i w r w',
  (i + n = retries)%nat ->
  geocode_loop service random a (seq i n) w = (inr r, w') ->
  forall j, (calls w + j < calls w')%nat ->
    match service (calls w + j) a with
    | Found lat lon =>
        calls w' = (calls w + j + 1)%nat /\ r = Some (mkPoint a true (lat, lon))
    | NoResult =>
        ((i + j < 2)%nat /\ (calls w + j + 1 < calls w')%nat)
        \/ ((i + j = 2)%nat /\ calls w' = (calls w + j + 1)%nat /\ r = None)
    | Raises e =>
        if decide (e = GeocoderTimedOut) then
          ((i + j < 2)%nat /\ (calls w + j + 1 < calls w')%nat)
          \/ ((i + j = 2)%nat /\ calls w' = (calls w + j + 1)%nat /\ r = None)
        else calls w' = (calls w + j + 1)%nat /\ r = None
    end.
Proof.
  induction n as [| n IH]; intros i w r w' Hin Hrun j Hj.
  { cbn in Hrun. injection Hrun as <- <-. lia. }
  unfold retries in Hin.
  cbn [seq geocode_loop] in Hrun. unfold bind at 1 in Hrun.
  assert (Hnext : forall w1,
            calls w1 = S (calls w) ->
            geocode_loop service random a (seq (S i) n) w1 = (inr r, w') ->
            (j = 0%nat ->
             ((i < 2)%nat /\ (calls w + 1 < calls w')%nat)
             \/ (i = 2%nat /\ calls w' = (calls w + 1)%nat /\ r = None))
            /\ (forall j', j = S j' ->
                  match service (calls w1 + j') a with
                  | Found lat lon =>
                      calls w' = (calls w1 + j' + 1)%nat
                      /\ r = Some (mkPoint a true (lat, lon))
                  | NoResult =>
                      ((S i + j' < 2)%nat /\ (calls w1 + j' + 1 < calls w')%nat)
                      \/ ((S i + j' = 2)%nat
                          /\ calls w' = (calls w1 + j' + 1)%nat /\ r = None)
                  | Raises e =>
                      if decide (e = GeocoderTimedOut) then
                        ((S i + j' < 2)%nat /\ (calls w1 + j' + 1 < calls w')%nat)
                        \/ ((S i + j' = 2)%nat
                            /\ calls w' = (calls w1 + j' + 1)%nat /\ r = None)
                      else calls w' = (calls w1 + j' + 1)%nat /\ r = None
                  end)).
  { intros w1 Hc Hrest. split.
    - intros ->. destruct n as [| n].
      + cbn in Hrest. injection Hrest as <- <-. right.
        split; [lia |]. split; [lia | reflexivity].
      + destruct (geocode_loop_shape service random a (S n) (S i) w1)
          as (r2 & w2 & evs & G1 & _ & _ & _ & G5 & _);
          [unfold retries; lia | lia |].
        rewrite G1 in Hrest. injection Hrest as <- <-. left. lia.
    - intros j' ->. apply (IH (S i) w1 r w'); [unfold retries; lia | exact Hrest | lia]. }
  assert (Hstop : calls w' = S (calls w) -> j = 0%nat) by lia.
  destruct (service (calls w) a) as [lat lon | | e] eqn:Hs.
  - rewrite (geocode_attempt_found _ _ _ _ _ _ _ Hs) in Hrun.
    cbn in Hrun. injection Hrun as <- <-. cbn in Hstop.
    rewrite (Hstop eq_refl), Nat.add_0_r, Hs. cbn. split; [lia | reflexivity].
  - rewrite (geocode_attempt_no_result _ _ _ _ _ Hs) in Hrun.
    destruct (Hnext (after_attempt a w) eq_refl Hrun) as [H0 HS].
    destruct j as [| j'].
    + rewrite Nat.add_0_r, Hs.
      destruct (H0 eq_refl) as [[? ?] | (? & ? & ?)]; [left | right];
        repeat split; try lia; assumption.
    + specialize (HS j' eq_refl). cbn [after_attempt calls] in HS.
      replace (calls w + S j')%nat with (S (calls w) + j')%nat by lia.
      replace (i + S j')%nat with (S i + j')%nat by lia.
      exact HS.
  - destruct (decide (e = GeocoderTimedOut)) as [-> | He].
    + destruct (Nat.lt_ge_cases i (retries - 1)) as [Hi | Hi].
      * rewrite (geocode_attempt_timeout _ _ _ _ _ Hs Hi) in Hrun.
        destruct (Hnext (after_backoff random a i w) eq_refl Hrun) as [H0 HS].
        destruct j as [| j'].
        -- rewrite Nat.add_0_r, Hs. cbn.
           destruct (H0 eq_refl) as [[? ?] | (? & ? & ?)]; [left | right];
             repeat split; try lia; assumption.
        -- specialize (HS j' eq_refl). cbn [after_backoff calls] in HS.
           replace (calls w + S j')%nat with (S (calls w) + j')%nat by lia.
           replace (i + S j')%nat with (S i + j')%nat by lia.
           exact HS.
      * rewrite (geocode_attempt_last_timeout _ _ _ _ _ Hs Hi) in Hrun.
        cbn in Hrun. injection Hrun as <- <-. cbn in Hstop.
        rewrite (Hstop eq_refl), Nat.add_0_r, Hs. cbn.
        unfold retries in Hi. right.
        split; [lia |]. split; [lia | reflexivity].
    + rewrite (geocode_attempt_error _ _ _ _ _ _ Hs He) in Hrun.
      cbn in Hrun. injection Hrun as <- <-. cbn in Hstop.
      rewrite (Hstop eq_refl), Nat.add_0_r, Hs.
      rewrite decide_False by exact He. cbn. split; [lia | reflexivity].
Qed.

(** C6, as the code has it. If every attempt times out, [geocode_address]
    makes exactly 3 lookups and returns absent; if the first attempt times
    out and the second succeeds, exactly 2 lookups are made and the point is
    returned. After a timeout at iteration 0 or 1, whatever the iteration
    list and the world, the loop waits the double nearest to [2^i + jitter],
    where the jitter is the value of [0 + (1 - 0) * random.random()], and
    goes on; after a timeout at a later iteration it returns absent without
    waiting. For a draw in [[0, 1]] the jitter is in [[0, 1]] and the wait in
    [[2^i, 2^i + 1]], and both ends are reached: the draw 0 gives the jitter 0
    and the wait [2^i], the draw [2^-53] is rounded away and gives the wait
    [2^i] too, and the draw [1 - 2^-53] gives the wait [2^0 + 1]. *)
Theorem geocode_address_backoff (a : Address) (w : World) :
  let jitter (r : Q) := round_double (0 + round_double ((1 - 0) * r)) in
  let wait (i : nat) (r : Q) :=
    round_double (inject_Z (2 ^ Z.of_nat i) + jitter r) in
  ((forall j, (j < 3)%nat -> service (calls w + j) a = Raises GeocoderTimedOut) ->
   geocode_address service random a w
   = (inr None,
      mkWorld (calls w + 3) (draws w + 2)
        (log w ++ [Sleep 1; Geocode a; Sleep (wait 0%nat (random (draws w)));
                   Sleep 1; Geocode a; Sleep (wait 1%nat (random (draws w + 1)));
                   Sleep 1; Geocode a])))
  /\ (forall lat lon,
        service (calls w) a = Raises GeocoderTimedOut ->
        service (calls w + 1) a = Found lat lon ->
        geocode_address service random a w
        = (inr (Some (mkPoint a true (lat, lon))),
           mkWorld (calls w + 2) (draws w + 1)
             (log w ++ [Sleep 1; Geocode a; Sleep (wait 0%nat (random (draws w)));
                        Sleep 1; Geocode a])))
  /\ (forall i rest v,
        service (calls v) a = Raises GeocoderTimedOut ->
        ((i < 2)%nat ->
         geocode_loop service random a (i :: rest) v
         = geocode_loop service random a rest
             (mkWorld (S (calls v)) (S (draws v))
                (log v ++ [Sleep 1; Geocode a; Sleep (wait i (random (draws v)))])))
        /\ ((2 <= i)%nat ->
            geocode_loop service random a (i :: rest) v
            = (inr None,
               mkWorld (S (calls v)) (draws v) (log v ++ [Sleep 1; Geocode a]))))
  /\ (forall i r,
        (i <= 1)%nat -> (0 <= r)%Q -> (r <= 1)%Q ->
        ((0 <= jitter r)%Q /\ (jitter r <= 1)%Q)
        /\ (inject_Z (2 ^ Z.of_nat i) <= wait i r)%Q
        /\ (wait i r <= inject_Z (2 ^ Z.of_nat i) + 1)%Q)
  /\ (jitter 0%Q = 0%Q /\ wait 0%nat 0%Q = 1%Q /\ wait 1%nat 0%Q = 2%Q
      /\ wait 0%nat (1 # 2 ^ 53)%Q = 1%Q /\ wait 1%nat (1 # 2 ^ 53)%Q = 2%Q
      /\ wait 0%nat ((2 ^ 53 - 1) # 2 ^ 53)%Q = 2%Q).
Proof.
  intros jitter wait.
  assert (Hloop : forall i rest v,
            service (calls v) a = Raises GeocoderTimedOut ->
            ((i < 2)%nat ->
             geocode_loop service random a (i :: rest) v
             = geocode_loop service random a rest (after_backoff random a i v))
            /\ ((2 <= i)%nat ->
                geocode_loop service random a (i :: rest) v
                = (inr None, after_attempt a v))).
  { intros i rest v Hs. split; intros Hi; cbn [geocode_loop]; unfold bind at 1.
    - rewrite (geocode_attempt_timeout service random a i v Hs)
        by (unfold retries; lia).
      reflexivity.
    - rewrite (geocode_attempt_last_timeout service random a i v Hs)
        by (unfold retries; lia).
      reflexivity. }
  rewrite !Nat.add_succ_r, !Nat.add_0_r.
  split; [| split; [| split; [| split]]].
  - intros H.
    pose proof (H 0%nat ltac:(lia)) as H0.
    pose proof (H 1%nat ltac:(lia)) as H1.
    pose proof (H 2%nat ltac:(lia)) as H2.
    rewrite !Nat.add_succ_r, ?Nat.add_0_r in *.
    unfold geocode_address, retries. cbn [seq].
    rewrite (proj1 (Hloop 0%nat _ w H0)) by lia.
    rewrite (proj1 (Hloop 1%nat _ (after_backoff random a 0 w) H1)) by lia.
    rewrite (proj2 (Hloop 2%nat _
                      (after_backoff random a 1 (after_backoff random a 0 w)) H2))
      by lia.
    unfold after_attempt, after_backoff. cbn [calls draws log].
    rewrite <- !app_assoc. reflexivity.
  - intros lat lon H0 H1.
    unfold geocode_address, retries. cbn [seq].
    rewrite (proj1 (Hloop 0%nat _ w H0)) by lia.
    cbn [geocode_loop]. unfold bind.
    rewrite (geocode_attempt_found service random a 1
               (after_backoff random a 0 w) lat lon H1).
    unfold ret, after_attempt, after_backoff. cbn [calls draws log].
    rewrite <- !app_assoc. reflexivity.
  - intros i rest v Hs. destruct (Hloop i rest v Hs) as [Hlt Hge].
    split; [exact Hlt | exact Hge].
  - intros i r Hi H0 H1.
    split; [exact (uniform_value_unit r H0 H1) |].
    destruct (backoff_wait_bounds i r Hi H0 H1) as [Hlo Hhi].
    split; [exact Hlo |].
    rewrite inject_Z_plus in Hhi. exact Hhi.
  - repeat split; vm_compute; reflexivity.
Qed.

(** C3, as the code has it. A lookup that raises anything but a timeout ends
    [geocode_address] at once, at whatever attempt it happens: absent is
    returned right after that lookup, and it was the last one. A lookup that
    finds nothing does not end the call: the loop goes on to the next
    attempt with no backoff wait, and only after the third attempt has found
    nothing is absent returned. In every case [geocode_address] returns and
    raises nothing. *)
Theorem geocode_address_failure (a : Address) (w : World) :
  (forall i rest v e,
     service (calls v) a = Raises e -> e <> GeocoderTimedOut ->
     geocode_loop service random a (i :: rest) v = (inr None, after_attempt a v))
  /\ (forall i rest v,
        service (calls v) a = NoResult ->
        geocode_loop service random a (i :: rest) v
        = geocode_loop service random a rest (after_attempt a v))
  /\ (exists r w',
        geocode_address service random a w = (inr r, w')
        /\ forall j, (calls w + j < calls w')%nat ->
             (forall e,
                service (calls w + j) a = Raises e -> e <> GeocoderTimedOut ->
                calls w' = (calls w + j + 1)%nat /\ r = None)
             /\ (service (calls w + j) a = NoResult ->
                 ((j < 2)%nat /\ (calls w + j + 1 < calls w')%nat)
                 \/ (j = 2%nat /\ calls w' = (calls w + 3)%nat /\ r = None)))
  /\ (forall e,
        service (calls w) a = Raises e -> e <> GeocoderTimedOut ->
        geocode_address service random a w = (inr None, after_attempt a w))
  /\ (service (calls w) a = NoResult ->
      geocode_address service random a w
      = geocode_loop service random a [1; 2]%nat (after_attempt a w))
  /\ ((forall j, (j < 3)%nat -> service (calls w + j) a = NoResult) ->
      geocode_address service random a w
      = (inr None, after_attempt a (after_attempt a (after_attempt a w)))).
Proof.
  assert (Hraise : forall i rest v e,
            service (calls v) a = Raises e -> e <> GeocoderTimedOut ->
            geocode_loop service random a (i :: rest) v
            = (inr None, after_attempt a v)).
  { intros i rest v e Hs He. cbn [geocode_loop]. unfold bind.
    rewrite (geocode_attempt_error service random a i v e Hs He). reflexivity. }
  assert (Hnone : forall i rest v,
            service (calls v) a = NoResult ->
            geocode_loop service random a (i :: rest) v
            = geocode_loop service random a rest (after_attempt a v)).
  { intros i rest v Hs. cbn [geocode_loop]. unfold bind at 1.
    rewrite (geocode_attempt_no_result service random a i v Hs). reflexivity. }
  split; [exact Hraise |]. split; [exact Hnone |].
  split; [| split; [| split]].
  - destruct (geocode_loop_total service random a (seq 0 retries) w)
      as (r & w' & Hrun & _).
    exists r, w'. split; [exact Hrun |]. intros j Hj.
    pose proof (geocode_loop_lookup a retries 0 w r w' eq_refl Hrun j Hj) as H.
    split.
    + intros e Hs He. rewrite Hs, decide_False in H by exact He. exact H.
    + intros Hs. rewrite Hs in H. cbn [Nat.add] in H.
      destruct H as [[? ?] | (-> & ? & ?)]; [left; auto | right].
      split; [reflexivity |]. split; [lia | assumption].
  - intros e Hs He. apply Hraise with e; assumption.
  - intros Hs. unfold geocode_address, retries. cbn [seq].
    apply Hnone. exact Hs.
  - intros H.
    pose proof (H 0%nat ltac:(lia)) as H0.
    pose proof (H 1%nat ltac:(lia)) as H1.
    pose proof (H 2%nat ltac:(lia)) as H2.
    rewrite !Nat.add_succ_r, ?Nat.add_0_r in *.
    unfold geocode_address, retries. cbn [seq].
    rewrite (Hnone 0%nat _ w H0).
    rewrite (Hnone 1%nat _ (after_attempt a w) H1).
    rewrite (Hnone 2%nat _ (after_attempt a (after_attempt a w)) H2).
    reflexivity.
Qed.

End GeocoderLookups.

(** C6, as the specification has it, fails on the size of the jitter: the
    generator may draw 0, and every attempt of the demonstration service
    times out for ["stuck"]; the first backoff wait is then [2^0] itself,
    not [2^0] plus a jitter above 0. *)
Lemma jitter_can_be_zero :
  ~ (forall (service : nat -> Address -> Response) (random : nat -> Q)
            (a : Address) (w : World),
       (forall n, (0 <= random n)%Q /\ (random n < 1)%Q) ->
       (forall j, (j < 3)%nat ->
                  service (calls w + j)%nat a = Raises GeocoderTimedOut) ->
       exists d0 d1,
         log (snd (geocode_address service random a w))
         = log w ++ [Sleep 1; Geocode a; Sleep d0;
                     Sleep 1; Geocode a; Sleep d1;
                     Sleep 1; Geocode a]
         /\ ((inject_Z (2 ^ 0) < d0)%Q /\ (d0 < inject_Z (2 ^ 0) + 1)%Q)
         /\ ((inject_Z (2 ^ 1) < d1)%Q /\ (d1 < inject_Z (2 ^ 1) + 1)%Q)).
Proof.
  intros H.
  destruct (H Demo.service Edge.random_zero "stuck" Demo.w0)
    as (d0 & d1 & Hlog & [Hlo _] & _).
  - intros n. unfold Edge.random_zero. split; lra.
  - intros j Hj. reflexivity.
  - vm_compute in Hlog. injection Hlog as <- _.
    vm_compute in Hlo. discriminate Hlo.
Qed.

Lemma geocode_address_backoff_witness :
  geocode_address Demo.service Demo.random "stuck" Demo.w0
  = (inr None,
     mkWorld 3 2 [Sleep 1; Geocode "stuck"; Sleep (3 # 2);
                  Sleep 1; Geocode "stuck"; Sleep (5 # 2);
                  Sleep 1; Geocode "stuck"])
  /\ geocode_address Demo.service Demo.random "slow" Demo.w0
     = (inr (Some (mkPoint "slow" true (1%Q, 1%Q))),
        mkWorld 2 1 [Sleep 1; Geocode "slow"; Sleep (3 # 2);
                     Sleep 1; Geocode "slow"]).
Proof.
  split.
  - apply (proj1 (geocode_address_backoff Demo.service Demo.random "stuck" Demo.w0)).
    intros j Hj. reflexivity.
  - apply (proj1 (proj2 (geocode_address_backoff Demo.service Demo.random "slow" Demo.w0)) 1%Q 1%Q);
      reflexivity.
Defined.

Lemma geocode_address_failure_witness :
  geocode_loop Demo.service Demo.random "offline" [1; 2]%nat
    (after_attempt "offline" Demo.w0)
  = (inr None, after_attempt "offline" (after_attempt "offline" Demo.w0))
  /\ geocode_address Demo.service Demo.random "offline" Demo.w0
     = (inr None, mkWorld 1 0 [Sleep 1; Geocode "offline"])
  /\ geocode_address Demo.service Demo.random "nowhere" Demo.w0
     = (inr None,
        mkWorld 3 0 [Sleep 1; Geocode "nowhere"; Sleep 1; Geocode "nowhere";
                     Sleep 1; Geocode "nowhere"]).
Proof.
  destruct (geocode_address_failure Demo.service Demo.random "offline" Demo.w0)
    as (Hraise & _ & _ & Hfirst & _).
  destruct (geocode_address_failure Demo.service Demo.random "nowhere" Demo.w0)
    as (_ & _ & _ & _ & _ & Hnone).
  split; [| split].
  - apply (Hraise 1%nat [2%nat] (after_attempt "offline" Demo.w0)
             (OtherException "connection refused")); [reflexivity | discriminate].
  - apply (Hfirst (OtherException "connection refused"));
      [reflexivity | discriminate].
  - apply Hnone. intros j Hj. reflexivity.
Defined.

(** ** More on geocoding a list of addresses *)

Section GeocodeEachBehaviour.

Variable service : nat -> Address -> Response.
Variable random : nat -> Q.

Lemma geocode_each_shape addrs : forall acc w,
  exists ld w' evs,
    geocode_each service random addrs acc w = (inr (acc ++ ld), w')
    /\ log w' = log w ++ evs
    /\ limited false evs = true
    /\ (calls w <= calls w')%nat
    /\ (draws w <= draws w' <= draws w + (retries - 1) * length addrs)%nat
    /\ Forall (found_between service w w') ld.
Proof.
  induction addrs as [| a addrs IH]; intros acc w.
  - exists [], w, []. cbn. rewrite !app_nil_r. repeat split; try lia.
    constructor.
  - destruct (geocode_loop_shape service random a retries 0 w)
      as (r & w1 & evs1 & H1 & H2 & H3 & H4 & H5 & H6);
      [reflexivity | unfold retries; lia |].
    cbn [geocode_each]. unfold bind at 1, geocode_address. rewrite H1.
    assert (Hlater : forall w2 ld, (calls w1 <= calls w2)%nat ->
              Forall (found_between service w1 w2) ld -> Forall (found_between service w w2) ld).
    { intros w2 ld Hc HF. eapply Forall_impl; [exact HF |].
      intros p (n & lat & lon & Hn & Hs & Hp). exists n, lat, lon.
      split; [lia | auto]. }
    destruct r as [p |].
    + destruct (IH (acc ++ [p]) w1)
        as (ld & w2 & evs2 & G1 & G2 & G3 & G4 & G5 & G6).
      exists (p :: ld), w2, ((evs1 ++ [Geocode a]) ++ evs2).
      rewrite <- app_assoc in G1. split; [exact G1 |].
      split; [rewrite G2, H2, <- !app_assoc; reflexivity |].
      split; [apply limited_app; assumption |].
      split; [lia |].
      split; [unfold retries in *; cbn [length]; lia |].
      constructor; [| apply Hlater; assumption].
      destruct (service (Nat.pred (calls w1)) a) as [lat lon | |] eqn:Hs;
        cbn in H4; try discriminate H4.
      injection H4 as ->. exists (Nat.pred (calls w1)), lat, lon. cbn.
      split; [lia | auto].
    + destruct (IH acc w1)
        as (ld & w2 & evs2 & G1 & G2 & G3 & G4 & G5 & G6).
      exists ld, w2, ((evs1 ++ [Geocode a]) ++ evs2).
      split; [exact G1 |].
      split; [rewrite G2, H2, <- !app_assoc; reflexivity |].
      split; [apply limited_app; assumption |].
      split; [lia |].
      split; [unfold retries in *; cbn [length]; lia |].
      apply Hlater; assumption.
Qed.

(** X3. Every geocoded point carries the coordinates that a lookup of its
    own address, made during this run, found; so an address for which no
    lookup of the run finds anything is not among the geocoded points. *)
Theorem geocoded_points_come_from_service (addrs : list Address)
    (w w1 : World) (ld : list GeocodedPoint) :
  geocode_each service random addrs [] w = (inr ld, w1) ->
  (forall p, p ∈ ld ->
     location p ∈ addrs
     /\ exists n lat lon,
          (calls w <= n < calls w1)%nat
          /\ service n (location p) = Found lat lon
          /\ coords p = (lat, lon))
  /\ (forall a,
        (forall n, (calls w <= n < calls w1)%nat ->
                   answer_of a (service n a) = None) ->
        a ∉ location <$> ld).
Proof.
  intros Hgeo.
  destruct (geocode_each_shape addrs [] w)
    as (ld' & w' & evs & G1 & _ & _ & _ & _ & G6).
  destruct (geocode_each_from_empty service random addrs w)
    as (ld'' & w'' & F1 & _ & _ & Fsub & _).
  cbn [app] in G1. rewrite Hgeo in G1, F1.
  injection G1 as <- <-. injection F1 as <- <-.
  rewrite Forall_forall in G6.
  split.
  - intros p Hp. split.
    + apply (sublist_subseteq _ _ Fsub). apply list_elem_of_fmap.
      exists p. auto.
    + destruct (G6 p Hp) as (n & lat & lon & Hn & Hs & Heq).
      exists n, lat, lon. split; [exact Hn |]. split; [exact Hs |].
      apply (f_equal coords) in Heq. exact Heq.
  - intros a Hnone Hin. apply list_elem_of_fmap in Hin as (p & -> & Hp).
    destruct (G6 p Hp) as (n & lat & lon & Hn & Hs & _).
    specialize (Hnone n Hn). rewrite Hs in Hnone. discriminate Hnone.
Qed.

Lemma geocode_address_first_found a w lat lon :
  service (calls w) a = Found lat lon ->
  geocode_address service random a w
  = (inr (Some (mkPoint a true (lat, lon))), after_attempt a w).
Proof.
  intros Hs. unfold geocode_address, retries. cbn [seq geocode_loop].
  unfold bind. rewrite (geocode_attempt_found _ _ _ _ _ _ _ Hs). reflexivity.
Qed.

Lemma geocode_each_all_found addrs : forall acc w,
  (forall n a, a ∈ addrs -> exists lat lon, service n a = Found lat lon) ->
  exists ld w',
    geocode_each service random addrs acc w = (inr (acc ++ ld), w')
    /\ location <$> ld = addrs
    /\ calls w' = (calls w + length addrs)%nat
    /\ draws w' = draws w
    /\ (sleep_total (log w') == sleep_total (log w) + inject_Z (Z.of_nat (length addrs)))%Q.
Proof.
  induction addrs as [| a addrs IH]; intros acc w Hall.
  - exists [], w. cbn. rewrite app_nil_r. repeat split; try lia. ring.
  - destruct (Hall (calls w) a) as (lat & lon & Hs); [left |].
    cbn [geocode_each]. unfold bind at 1.
    rewrite (geocode_address_first_found _ _ _ _ Hs).
    destruct (IH (acc ++ [mkPoint a true (lat, lon)]) (after_attempt a w))
      as (ld & w' & G1 & G2 & G3 & G4 & G5).
    { intros n a' Ha'. apply Hall. right. exact Ha'. }
    exists (mkPoint a true (lat, lon) :: ld), w'.
    rewrite <- app_assoc in G1. split; [exact G1 |].
    split; [cbn; rewrite G2; reflexivity |].
    cbn [calls draws log after_attempt length] in *.
    split; [lia |]. split; [exact G4 |].
    rewrite G5. clear.
    assert (E : (sleep_total (log w ++ [Sleep 1; Geocode a])
                 == sleep_total (log w) + 1)%Q).
    { induction (log w) as [| [] l IHl]; cbn; rewrite ?IHl; ring. }
    rewrite E, Nat2Z.inj_succ. unfold Z.succ. rewrite inject_Z_plus. ring.
Qed.

(** X4. When the service finds every address of the list at every lookup, no
    address is dropped: the geocoded points are those of the list, in its
    order; each address is looked up exactly once, no backoff is drawn, and
    the run sleeps one second per address. *)
Theorem all_found_none_dropped (addrs : list Address) (w : World) :
  (forall n a, a ∈ addrs -> exists lat lon, service n a = Found lat lon) ->
  exists ld w1,
    geocode_each service random addrs [] w = (inr ld, w1)
    /\ location <$> ld = addrs
    /\ calls w1 = (calls w + length addrs)%nat
    /\ draws w1 = draws w
    /\ (sleep_total (log w1)
        == sleep_total (log w) + inject_Z (Z.of_nat (length addrs)))%Q.
Proof. intros Hall. exact (geocode_each_all_found addrs [] w Hall). Qed.

End GeocodeEachBehaviour.

(** ** More on the pipeline *)

Section PipelineBehaviour.

Variable service : nat -> Address -> Response.
Variable random : nat -> Q.
Variable sklearn : Z -> Z -> list Coords -> exn + list Z.

(** Lines 47-70 leave the world as it is or add the call of [fit_predict] to
    it. *)
Lemma cluster_located_world ld k w :
  snd (cluster_located sklearn ld k w) = w
  \/ snd (cluster_located sklearn ld k w) = after_fit k (map coords ld) w.
Proof.
  unfold cluster_located.
  destruct (Z.of_nat (length ld) <? k); [left; reflexivity | right].
  unfold bind, kmeans_fit_predict.
  destruct (sklearn k 42 (map coords ld)) as [e | labels]; [reflexivity |].
  apply organize_world.
Qed.

(** X6. Over a whole run of the [try] statement of [main], every lookup comes
    directly after a wait of one second. *)
Theorem export_routes_rate_limited (addrs : list Address) (k : Z) (w : World) :
  exists evs,
    log (snd (export_routes service random sklearn addrs k w)) = log w ++ evs
    /\ rate_limited evs = true.
Proof.
  destruct (geocode_each_shape service random addrs [] w)
    as (ld & w1 & evs & Hgeo & Hlog & Hlim & _).
  cbn [app] in Hgeo.
  assert (Hcl : exists evs2,
            log (snd (cluster_located sklearn ld k w1)) = log w1 ++ evs2
            /\ limited false evs2 = true).
  { destruct (cluster_located_world ld k w1) as [-> | ->].
    - exists []. rewrite app_nil_r. auto.
    - eexists. split; reflexivity. }
  destruct Hcl as (evs2 & Hlog2 & Hlim2).
  unfold export_routes, try_except, bind at 1.
  rewrite (cluster_addresses_located _ _ _ _ _ _ _ _ Hgeo).
  destruct (cluster_located sklearn ld k w1) as [[e | routes] w2];
    cbn [snd] in Hlog2.
  - eexists (evs ++ evs2 ++ [_]). cbn [snd log print emit].
    split; [rewrite Hlog2, Hlog, <- !app_assoc; reflexivity |].
    unfold rate_limited. apply limited_app; [exact Hlim |].
    apply limited_app; [exact Hlim2 | reflexivity].
  - eexists (evs ++ evs2 ++ [_; _; _]). cbn.
    split; [rewrite Hlog2, Hlog, <- !app_assoc; reflexivity |].
    unfold rate_limited. apply limited_app; [exact Hlim |].
    apply limited_app; [exact Hlim2 | reflexivity].
Qed.

(** X8. An exception of [fit_predict], as for a count of zero drivers, comes
    out of [cluster_addresses] unchanged; [main] then prints it and writes no
    file. *)
Theorem fit_predict_error_is_printed (addrs : list Address) (k : Z)
    (w w1 : World) (ld : list GeocodedPoint) (e : exn) :
  geocode_each service random addrs [] w = (inr ld, w1) ->
  ¬ Z.of_nat (length ld) < k ->
  sklearn k 42 (map coords ld) = inl e ->
  cluster_addresses service random sklearn addrs k w
  = (inl e, after_fit k (map coords ld) w1)
  /\ export_routes service random sklearn addrs k w
     = (inr tt,
        mkWorld (calls w1) (draws w1)
          (log w1 ++ [FitPredict k 42 (map coords ld);
                      Print ("Error: " +:+ str_exn e)])).
Proof.
  intros Hgeo Hk Hfit.
  assert (Hrun : cluster_addresses service random sklearn addrs k w
                 = (inl e, after_fit k (map coords ld) w1)).
  { rewrite (cluster_addresses_located _ _ _ _ _ _ _ _ Hgeo).
    rewrite cluster_located_fit by exact Hk.
    unfold bind, kmeans_fit_predict. rewrite Hfit. reflexivity. }
  split; [exact Hrun |].
  rewrite (export_routes_raises _ _ _ _ _ _ _ _ Hrun).
  cbn [after_fit calls draws log]. rewrite <- app_assoc. reflexivity.
Qed.

Lemma zip_fst_take {A B} (l : list A) (k : list B) :
  (zip l k).*1 = take (length k) l.
Proof.
  revert k. induction l as [| x l IH]; intros [| y k]; cbn;
    try reflexivity. f_equal. apply IH.
Qed.

(** X9. [cluster_addresses] goes through the labels that [fit_predict]
    returns, not through the points. With more labels than points it raises
    [IndexError]; with fewer it succeeds, and the routes hold the waypoints of
    the first points only, one per label: the other points are left out. *)
Theorem label_count_mismatch (addrs : list Address) (k : Z) (w w1 : World)
    (ld : list GeocodedPoint) (labels : list Z) :
  geocode_each service random addrs [] w = (inr ld, w1) ->
  ¬ Z.of_nat (length ld) < k ->
  sklearn k 42 (map coords ld) = inr labels ->
  ((length ld < length labels)%nat ->
   cluster_addresses service random sklearn addrs k w
   = (inl (IndexError "list index out of range"),
      after_fit k (map coords ld) w1))
  /\ ((length labels <= length ld)%nat ->
      exists routes,
        cluster_addresses service random sklearn addrs k w
        = (inr routes, after_fit k (map coords ld) w1)
        /\ all_waypoints routes ≡ₚ waypoint_of <$> take (length labels) ld).
Proof.
  intros Hgeo Hk Hfit.
  rewrite (cluster_addresses_located _ _ _ _ _ _ _ _ Hgeo).
  split; intros Hlen.
  - rewrite cluster_located_fit by exact Hk.
    unfold bind, kmeans_fit_predict. rewrite Hfit.
    rewrite organize_short by (rewrite drop_0; exact Hlen). reflexivity.
  - exists (regroup (zip ld labels)).
    split; [apply cluster_located_ok; assumption |].
    rewrite all_waypoints_regroup, zip_fst_take. reflexivity.
Qed.

Lemma group_of_all pairs c :
  Forall (fun l => l = c) pairs.*2 -> group_of pairs c = waypoint_of <$> pairs.*1.
Proof.
  unfold group_of. induction pairs as [| [p l] pairs IH]; [reflexivity |].
  cbn [fmap list_fmap snd fst]. intros H. inversion H as [| ? ? Hl Hrest]; subst.
  rewrite filter_cons_True by reflexivity. cbn [fmap list_fmap fst].
  f_equal. apply IH. exact Hrest.
Qed.

(** X10. With a clustering routine that keeps its labels in
    [[0, num_drivers)], every key of the routes that [cluster_addresses]
    returns is ["driver_"] followed by a number from 1 to [num_drivers]. *)
Theorem driver_ids_in_range (addrs : list Address) (k : Z) (w w' : World)
    (routes : Routes) :
  labels_per_row sklearn ->
  cluster_addresses service random sklearn addrs k w = (inr routes, w') ->
  forall id,
    is_Some (routes !! id) ->
    exists n, 1 <= n <= k /\ id = "driver_" +:+ str_int n.
Proof.
  intros Hrows Hrun id Hid.
  destruct (cluster_addresses_inv _ _ _ _ _ _ _ _ Hrun)
    as (ld & w1 & labels & _ & _ & _ & Hfit & Hlen & ->).
  destruct (Hrows _ _ _ _ Hfit) as [_ Hrange].
  apply regroup_keys in Hid as (c & Hc & ->).
  rewrite snd_zip in Hc by lia.
  rewrite Forall_forall in Hrange. apply Hrange in Hc.
  exists (c + 1). split; [lia | reflexivity].
Qed.

(** X11. With one driver, and a clustering routine that keeps its contract,
    the routes that [cluster_addresses] returns are the single route
    ["driver_1"], which holds the waypoints of all the geocoded points in the
    order of the input. *)
Theorem single_driver_route (addrs : list Address) (w w1 w' : World)
    (ld : list GeocodedPoint) (routes : Routes) :
  labels_per_row sklearn ->
  geocode_each service random addrs [] w = (inr ld, w1) ->
  cluster_addresses service random sklearn addrs 1 w = (inr routes, w') ->
  routes = {["driver_1" := mkRoute (waypoint_of <$> ld)]}.
Proof.
  intros Hrows Hgeo Hrun.
  destruct (cluster_addresses_inv _ _ _ _ _ _ _ _ Hrun)
    as (ld' & w1' & labels & Hgeo' & _ & Hk & Hfit & Hlen & ->).
  rewrite Hgeo in Hgeo'. injection Hgeo' as <- <-.
  destruct (Hrows _ _ _ _ Hfit) as [Hlen' Hrange].
  rewrite length_map in Hlen'.
  assert (Hzero : Forall (fun l => l = 0) (zip ld labels).*2).
  { rewrite snd_zip by lia. eapply Forall_impl; [exact Hrange |].
    cbn. intros l Hl. lia. }
  assert (Hin : 0 ∈ (zip ld labels).*2).
  { rewrite snd_zip by lia. destruct labels as [| l labels].
    - cbn in Hlen'. lia.
    - inversion Hrange as [| ? ? Hl _]; subst.
      assert (l = 0) as -> by lia. left. }
  apply map_eq. intros id.
  destruct (decide (id = driver_id_of 0)) as [-> | Hne].
  - rewrite regroup_lookup, decide_True by exact Hin.
    rewrite group_of_all by exact Hzero. rewrite fst_zip by lia.
    change (driver_id_of 0) with "driver_1". rewrite lookup_singleton_eq.
    reflexivity.
  - change (driver_id_of 0) with "driver_1" in Hne.
    rewrite lookup_singleton_ne by congruence.
    apply eq_None_not_Some. intros Hid.
    apply regroup_keys in Hid as (c & Hc & ->).
    rewrite Forall_forall in Hzero. rewrite (Hzero c Hc) in Hne.
    apply Hne. reflexivity.
Qed.

(** X12. Two cluster ids get the same driver identifier only when they are
    the same id: the waypoints of two clusters are never merged under one
    key. *)
Theorem driver_id_of_injective (c c' : Z) :
  driver_id_of c = driver_id_of c' <-> c = c'.
Proof.
  split; [apply driver_id_of_inj | intros ->; reflexivity].
Qed.

(** X13. On an empty list of addresses nothing is looked up. For a positive
    driver count [cluster_addresses] raises the validation error with the
    count 0, in the very world it started from; for a count of 0 or less it
    calls [fit_predict] on no row at all, returns no route if no label comes
    back and raises [IndexError] if one does. *)
Theorem cluster_addresses_empty_input (k : Z) (w : World) :
  (0 < k ->
   cluster_addresses service random sklearn [] k w
   = (inl (ValueError ("Not enough valid addresses (0) for "
                         +:+ str_int k +:+ " drivers")), w))
  /\ (k <= 0 ->
      forall labels,
        sklearn k 42 [] = inr labels ->
        cluster_addresses service random sklearn [] k w
        = (match labels with
           | [] => inr ∅
           | _ :: _ => inl (IndexError "list index out of range")
           end, after_fit k [] w)).
Proof.
  rewrite (cluster_addresses_located service random sklearn [] k w [] w eq_refl).
  unfold cluster_located. cbn [length].
  change (map coords []) with (@nil Coords).
  split.
  - intros Hk. destruct (Z.ltb_spec (Z.of_nat 0) k); [reflexivity | lia].
  - intros Hk labels Hfit. destruct (Z.ltb_spec (Z.of_nat 0) k); [lia |].
    unfold bind, kmeans_fit_predict. rewrite Hfit.
    destruct labels as [| l labels]; reflexivity.
Qed.

(** X14. For a driver count between 1 and the number of geocoded points, and
    a clustering routine that keeps its contract, the [try] statement of
    [main] calls [fit_predict] once, then opens [driver_routes.json], dumps
    routes that hold one waypoint per geocoded point, and prints the success
    line, in that order and with nothing else after the geocoding. *)
Theorem valid_count_writes_routes (addrs : list Address) (k : Z)
    (w w1 : World) (ld : list GeocodedPoint) :
  labels_per_row sklearn ->
  accepts_valid_counts sklearn ->
  geocode_each service random addrs [] w = (inr ld, w1) ->
  1 <= k <= Z.of_nat (length ld) ->
  exists routes,
    export_routes service random sklearn addrs k w
    = (inr tt,
       mkWorld (calls w1) (draws w1)
         (log w1 ++ [FitPredict k 42 (map coords ld);
                     OpenWrite "driver_routes.json";
                     JsonDump routes;
                     Print "Routes exported to driver_routes.json"]))
    /\ all_waypoints routes ≡ₚ waypoint_of <$> ld
    /\ (size routes <= Z.to_nat k)%nat.
Proof.
  intros Hrows Haccepts Hgeo Hk.
  destruct (Haccepts k 42 (map coords ld)) as [labels Hfit];
    [rewrite length_map; exact Hk |].
  destruct (Hrows _ _ _ _ Hfit) as [Hlen Hrange].
  rewrite length_map in Hlen.
  exists (regroup (zip ld labels)). split; [| split].
  - unfold export_routes, try_except, bind at 1.
    rewrite (cluster_addresses_located _ _ _ _ _ _ _ _ Hgeo).
    rewrite (cluster_located_ok sklearn ld k w1 labels) by (lia || exact Hfit).
    cbn. rewrite <- !app_assoc. reflexivity.
  - rewrite all_waypoints_regroup, fst_zip by lia. reflexivity.
  - apply regroup_size. rewrite snd_zip by lia. exact Hrange.
Qed.

End PipelineBehaviour.

(** ** The further statements on concrete runs *)

Lemma geocode_address_sleep_bounds_witness :
  exists evs,
    log (snd (geocode_address Demo.service Demo.random "stuck" Demo.w0))
    = log Demo.w0 ++ evs
    /\ (1 <= sleep_total evs)%Q
    /\ (sleep_total evs <= 8)%Q.
Proof.
  apply (geocode_address_sleep_bounds Demo.service Demo.random "stuck" Demo.w0).
  intros m. unfold Demo.random. split; lra.
Defined.

Lemma geocoded_points_come_from_service_witness :
  (forall p, p ∈ (Demo.located ["A"; "nowhere"; "C"]).1 ->
     location p ∈ ["A"; "nowhere"; "C"]
     /\ exists n lat lon,
          (calls Demo.w0 <= n < calls (Demo.located ["A"; "nowhere"; "C"]).2)%nat
          /\ Demo.service n (location p) = Found lat lon
          /\ coords p = (lat, lon))
  /\ (forall a,
        (forall n,
           (calls Demo.w0 <= n < calls (Demo.located ["A"; "nowhere"; "C"]).2)%nat ->
           answer_of a (Demo.service n a) = None) ->
        a ∉ location <$> (Demo.located ["A"; "nowhere"; "C"]).1).
Proof.
  apply (geocoded_points_come_from_service Demo.service Demo.random
           ["A"; "nowhere"; "C"] Demo.w0).
  vm_compute. reflexivity.
Defined.

Lemma all_found_none_dropped_witness :
  exists ld w1,
    geocode_each Demo.service Demo.random ["A"; "B"; "A"] [] Demo.w0 = (inr ld, w1)
    /\ location <$> ld = ["A"; "B"; "A"]
    /\ calls w1 = (calls Demo.w0 + length ["A"; "B"; "A"])%nat
    /\ draws w1 = draws Demo.w0
    /\ (sleep_total (log w1)
        == sleep_total (log Demo.w0) + inject_Z (Z.of_nat (length ["A"; "B"; "A"])))%Q.
Proof.
  apply (all_found_none_dropped Demo.service Demo.random ["A"; "B"; "A"] Demo.w0).
  intros n a Ha.
  repeat (apply elem_of_cons in Ha as [-> | Ha];
          [eexists _, _; reflexivity |]).
  inversion Ha.
Defined.

Lemma fit_predict_error_is_printed_witness :
  cluster_addresses Demo.service Demo.random Demo.sklearn ["A"; "B"] 0 Demo.w0
  = (inl (ValueError "invalid n_clusters"),
     after_fit 0 (map coords (Demo.located ["A"; "B"]).1) (Demo.located ["A"; "B"]).2)
  /\ log (snd (export_routes Demo.service Demo.random Demo.sklearn
                 ["A"; "B"] 0 Demo.w0))
     = [Sleep 1; Geocode "A"; Sleep 1; Geocode "B";
        FitPredict 0 42 [(53%Q, (-113)%Q); (54%Q, (-113)%Q)];
        Print "Error: invalid n_clusters"].
Proof.
  destruct (fit_predict_error_is_printed Demo.service Demo.random Demo.sklearn
              ["A"; "B"] 0 Demo.w0 (Demo.located ["A"; "B"]).2
              (Demo.located ["A"; "B"]).1 (ValueError "invalid n_clusters"))
    as [Hrun Hexp].
  - vm_compute. reflexivity.
  - vm_compute. discriminate.
  - reflexivity.
  - split; [exact Hrun |]. rewrite Hexp. reflexivity.
Defined.

Lemma label_count_mismatch_witness :
  cluster_addresses Demo.service Demo.random Edge.sklearn_long ["A"; "C"] 2 Demo.w0
  = (inl (IndexError "list index out of range"),
     after_fit 2 (map coords (Demo.located ["A"; "C"]).1) (Demo.located ["A"; "C"]).2)
  /\ exists routes,
       cluster_addresses Demo.service Demo.random Edge.sklearn_short
         ["A"; "C"] 2 Demo.w0
       = (inr routes,
          after_fit 2 (map coords (Demo.located ["A"; "C"]).1)
            (Demo.located ["A"; "C"]).2)
       /\ all_waypoints routes ≡ₚ [mkWaypoint "A" true].
Proof.
  split.
  - apply (proj1 (label_count_mismatch Demo.service Demo.random Edge.sklearn_long
                    ["A"; "C"] 2 Demo.w0 (Demo.located ["A"; "C"]).2
                    (Demo.located ["A"; "C"]).1 [0; 0; 0]
                    ltac:(vm_compute; reflexivity)
                    ltac:(vm_compute; discriminate)
                    ltac:(reflexivity))).
    cbn. lia.
  - apply (proj2 (label_count_mismatch Demo.service Demo.random Edge.sklearn_short
                    ["A"; "C"] 2 Demo.w0 (Demo.located ["A"; "C"]).2
                    (Demo.located ["A"; "C"]).1 [0]
                    ltac:(vm_compute; reflexivity)
                    ltac:(vm_compute; discriminate)
                    ltac:(reflexivity))).
    cbn. lia.
Defined.

Lemma driver_ids_in_range_witness :
  exists n, 1 <= n <= 2 /\ "driver_2" = "driver_" +:+ str_int n.
Proof.
  apply (driver_ids_in_range Demo.service Demo.random Demo.sklearn
           ["A"; "C"; "nowhere"; "B"; "D"] 2 Demo.w0
           (Demo.routed ["A"; "C"; "nowhere"; "B"; "D"] 2).2
           (Demo.routed ["A"; "C"; "nowhere"; "B"; "D"] 2).1).
  - apply demo_labels_per_row.
  - vm_compute. reflexivity.
  - vm_compute. eexists. reflexivity.
Defined.

Lemma single_driver_route_witness :
  (Demo.routed ["A"; "C"; "nowhere"; "B"] 1).1
  = {["driver_1" := mkRoute [mkWaypoint "A" true; mkWaypoint "C" true;
                             mkWaypoint "B" true]]}.
Proof.
  apply (single_driver_route Demo.service Demo.random Demo.sklearn
           ["A"; "C"; "nowhere"; "B"] Demo.w0
           (Demo.located ["A"; "C"; "nowhere"; "B"]).2
           (Demo.routed ["A"; "C"; "nowhere"; "B"] 1).2
           (Demo.located ["A"; "C"; "nowhere"; "B"]).1).
  - apply demo_labels_per_row.
  - vm_compute. reflexivity.
  - vm_compute. reflexivity.
Defined.

Lemma cluster_addresses_empty_input_witness :
  cluster_addresses Demo.service Demo.random Demo.sklearn [] 3 Demo.w0
  = (inl (ValueError "Not enough valid addresses (0) for 3 drivers"), Demo.w0)
  /\ cluster_addresses Demo.service Demo.random Edge.sklearn_short [] 0 Demo.w0
     = (inl (IndexError "list index out of range"), after_fit 0 [] Demo.w0).
Proof.
  split.
  - apply (proj1 (cluster_addresses_empty_input Demo.service Demo.random
                    Demo.sklearn 3 Demo.w0)). lia.
  - apply (proj2 (cluster_addresses_empty_input Demo.service Demo.random
                    Edge.sklearn_short 0 Demo.w0) ltac:(lia) [0]).
    reflexivity.
Defined.

Lemma valid_count_writes_routes_witness :
  exists routes,
    export_routes Demo.service Demo.random Demo.sklearn ["A"; "C"; "B"; "D"] 2 Demo.w0
    = (inr tt,
       mkWorld (calls (Demo.located ["A"; "C"; "B"; "D"]).2)
         (draws (Demo.located ["A"; "C"; "B"; "D"]).2)
         (log (Demo.located ["A"; "C"; "B"; "D"]).2
          ++ [FitPredict 2 42 (map coords (Demo.located ["A"; "C"; "B"; "D"]).1);
              OpenWrite "driver_routes.json";
              JsonDump routes;
              Print "Routes exported to driver_routes.json"]))
    /\ all_waypoints routes ≡ₚ waypoint_of <$> (Demo.located ["A"; "C"; "B"; "D"]).1
    /\ (size routes <= Z.to_nat 2)%nat.
Proof.
  apply (valid_count_writes_routes Demo.service Demo.random Demo.sklearn
           ["A"; "C"; "B"; "D"] 2 Demo.w0).
  - apply demo_labels_per_row.
  - apply demo_accepts_valid_counts.
  - vm_compute. reflexivity.
  - vm_compute. split; discriminate.
Defined.

(** ** One result, and one block of actions, per occurrence of an address *)

Section PerOccurrence.

Variable service : nat -> Address -> Response.
Variable random : nat -> Q.
Variable sklearn : Z -> Z -> list Coords -> exn + list Z.

(** The loop of lines 41-45 keeps the results of [lookup_each] that are
    points, in their order. *)
Lemma geocode_each_lookup_each addrs : forall acc w,
  geocode_each service random addrs acc w
  = (inr (acc ++ omap id (lookup_each service random addrs w).1),
     (lookup_each service random addrs w).2).
Proof.
  induction addrs as [| a addrs IH]; intros acc w.
  - cbn. rewrite app_nil_r. reflexivity.
  - destruct (geocode_loop_total service random a (seq 0 retries) w)
      as (r & w1 & Hrun & _).
    cbn [geocode_each lookup_each]. unfold bind at 1, geocode_address.
    rewrite Hrun. specialize (IH (match r with Some p => acc ++ [p] | None => acc end) w1).
    destruct (lookup_each service random addrs w1) as [results w2].
    cbn [fst snd] in *. destruct r as [p |]; rewrite IH; cbn.
    + rewrite <- app_assoc. reflexivity.
    + reflexivity.
Qed.

(** Every occurrence has a lookup of its own, later than those of the
    occurrences before it, and its result is what [geocode_address] makes
    of the answer of that lookup. *)
Lemma lookup_each_answers addrs : forall w,
  exists ns,
    length ns = length addrs
    /\ StronglySorted lt ns
    /\ Forall (fun n => (calls w <= n < calls (lookup_each service random addrs w).2)%nat) ns
    /\ (lookup_each service random addrs w).1
       = zip_with (fun a n => answer_of a (service n a)) addrs ns
    /\ (calls w <= calls (lookup_each service random addrs w).2)%nat.
Proof.
  induction addrs as [| a addrs IH]; intros w.
  - exists []. cbn. repeat split; try constructor; lia.
  - destruct (geocode_loop_shape service random a retries 0 w)
      as (r & w1 & evs & H1 & _ & _ & H4 & H5 & _);
      [reflexivity | unfold retries; lia |].
    cbn [lookup_each]. unfold geocode_address. rewrite H1.
    destruct (IH w1) as (ns & G1 & G2 & G3 & G4 & G5).
    destruct (lookup_each service random addrs w1) as [results w2].
    cbn [fst snd] in *.
    exists (Nat.pred (calls w1) :: ns).
    split; [cbn; lia |].
    split.
    { constructor; [exact G2 |].
      eapply Forall_impl; [exact G3 |]. cbn. intros n Hn. lia. }
    split.
    { constructor; [lia |].
      eapply Forall_impl; [exact G3 |]. cbn. intros n Hn. lia. }
    split; [cbn; rewrite H4, G4; reflexivity | lia].
Qed.

(** C10. Every occurrence of an address in the list is geocoded on its own,
    duplicates included: each has its own lookup, whose answer alone decides
    whether it gives a point; and every occurrence that gives a point gives
    one waypoint. With a clustering routine that returns one label per row,
    the waypoints of the routes that [cluster_addresses] returns are, up to
    order, those of the successful results with their multiplicities, and
    there are as many of them. *)
Theorem waypoint_count (addrs : list Address) (k : Z) (w w' : World)
    (routes : Routes) :
  labels_per_row sklearn ->
  cluster_addresses service random sklearn addrs k w = (inr routes, w') ->
  exists (ns : list nat) (results : list (option GeocodedPoint)),
    length ns = length addrs
    /\ StronglySorted lt ns
    /\ Forall (fun n => (calls w <= n < calls w')%nat) ns
    /\ results = zip_with (fun a n => answer_of a (service n a)) addrs ns
    /\ results = (lookup_each service random addrs w).1
    /\ all_waypoints routes ≡ₚ waypoint_of <$> omap id results
    /\ length (all_waypoints routes) = length (omap id results).
Proof.
  intros Hrows Hrun.
  destruct (cluster_addresses_inv _ _ _ _ _ _ _ _ Hrun)
    as (ld & w1 & labels & Hgeo & _ & Hk & Hfit & Hlen & ->).
  rewrite (cluster_addresses_located _ _ _ _ _ _ _ _ Hgeo) in Hrun.
  rewrite (cluster_located_ok sklearn ld k w1 labels Hk Hfit Hlen) in Hrun.
  injection Hrun as <-.
  rewrite (geocode_each_lookup_each addrs [] w) in Hgeo.
  cbn [app] in Hgeo. injection Hgeo as <- <-.
  destruct (Hrows _ _ _ _ Hfit) as [Hlen' _]. rewrite length_map in Hlen'.
  destruct (lookup_each_answers addrs w) as (ns & G1 & G2 & G3 & G4 & _).
  set (results := (lookup_each service random addrs w).1) in *.
  assert (Hperm : all_waypoints (regroup (zip (omap id results) labels))
                  ≡ₚ waypoint_of <$> omap id results).
  { rewrite all_waypoints_regroup, fst_zip by lia. reflexivity. }
  exists ns, results. cbn [after_fit calls].
  split; [exact G1 |]. split; [exact G2 |]. split; [exact G3 |].
  split; [exact G4 |]. split; [reflexivity |]. split; [exact Hperm |].
  rewrite Hperm, length_fmap. reflexivity.
Qed.

Lemma lookups_app x y : lookups (x ++ y) = lookups x ++ lookups y.
Proof.
  induction x as [| [] x IH]; cbn; rewrite ?IH; reflexivity.
Qed.

Lemma sleep_count_app x y :
  sleep_count (x ++ y) = (sleep_count x + sleep_count y)%nat.
Proof.
  induction x as [| [] x IH]; cbn; rewrite ?IH; reflexivity.
Qed.

(** The actions of the last [n] iterations of the loop of
    [geocode_address]. *)
Lemma geocode_loop_block a : forall n i w,
  (i + n = retries)%nat -> (1 <= n)%nat ->
  exists r w' evs (c d : nat),
    geocode_loop service random a (seq i n) w = (inr r, w')
    /\ log w' = log w ++ evs
    /\ (1 <= c <= n)%nat /\ (d < c)%nat
    /\ lookups evs = replicate c a
    /\ sleep_count evs = (c + d)%nat
    /\ calls w' = (calls w + c)%nat
    /\ draws w' = (draws w + d)%nat.
Proof.
  induction n as [| n IH]; intros i w Hin Hn; [lia |].
  cbn [seq geocode_loop]. unfold bind at 1.
  destruct (geocode_attempt_cases service random a i w)
    as [(Hrun & _) | [(Hrun & Hs) | (Hrun & Hs & Hi)]]; rewrite Hrun.
  - exists (answer_of a (service (calls w) a)), (after_attempt a w),
      [Sleep 1; Geocode a], 1%nat, 0%nat.
    cbn. repeat split; try reflexivity; lia.
  - destruct n as [| n].
    + exists None, (after_attempt a w), [Sleep 1; Geocode a], 1%nat, 0%nat.
      cbn. repeat split; try reflexivity; lia.
    + destruct (IH (S i) (after_attempt a w))
        as (r & w' & evs & c & d & H0 & H1 & H2 & H3 & H4 & H5 & H6 & H7);
        [lia | lia |].
      exists r, w', ([Sleep 1; Geocode a] ++ evs), (S c), d.
      cbn [calls draws log after_attempt] in *.
      split; [exact H0 |].
      split; [rewrite H1, <- app_assoc; reflexivity |].
      split; [lia |]. split; [lia |].
      split; [cbn; rewrite H4; reflexivity |].
      split; [cbn; rewrite H5; reflexivity |]. split; lia.
  - unfold retries in *.
    destruct (IH (S i) (after_backoff random a i w))
      as (r & w' & evs & c & d & H0 & H1 & H2 & H3 & H4 & H5 & H6 & H7);
      [lia | lia |].
    exists r, w',
      ([Sleep 1; Geocode a; Sleep (backoff_wait i (random (draws w)))] ++ evs),
      (S c), (S d).
    cbn [calls draws log after_backoff] in *.
    split; [exact H0 |].
    split; [rewrite H1, <- app_assoc; reflexivity |].
    split; [lia |]. split; [lia |].
    split; [cbn; rewrite H4; reflexivity |].
    split; [cbn; rewrite H5; lia |]. split; lia.
Qed.

Lemma geocode_each_blocks addrs : forall acc w,
  exists ld w' blocks,
    geocode_each service random addrs acc w = (inr ld, w')
    /\ log w' = log w ++ concat blocks
    /\ Forall2 block_of addrs blocks
    /\ calls w' = (calls w + length (lookups (concat blocks)))%nat
    /\ (draws w' + length (lookups (concat blocks))
        = draws w + sleep_count (concat blocks))%nat.
Proof.
  induction addrs as [| a addrs IH]; intros acc w.
  - exists acc, w, []. cbn. rewrite app_nil_r.
    repeat split; try constructor; lia.
  - destruct (geocode_loop_block a retries 0 w)
      as (r & w1 & evs & c & d & Hrun & H1 & H2 & H3 & H4 & H5 & H6 & H7);
      [reflexivity | unfold retries; lia |].
    cbn [geocode_each]. unfold bind at 1, geocode_address. rewrite Hrun.
    destruct (IH (match r with Some p => acc ++ [p] | None => acc end) w1)
      as (ld & w' & blocks & G0 & G1 & G2 & G3 & G4).
    exists ld, w', (evs :: blocks).
    assert (Hblock : block_of a evs).
    { exists c, d. unfold retries in H2. repeat split; try lia; assumption. }
    cbn [concat]. rewrite lookups_app, sleep_count_app, length_app, H4, H5.
    rewrite length_replicate.
    split; [destruct r; exact G0 |].
    split; [rewrite G1, H1, <- app_assoc; reflexivity |].
    split; [constructor; assumption |].
    split; lia.
Qed.

(** X5. [cluster_addresses] works through the addresses in input order, and
    whatever the service answers and however the run ends, it makes for each
    occurrence its own block of actions: between one and three lookups, all
    of that address, a wait before each, and backoff waits fewer than the
    lookups (so at most two). Nothing else is looked up or waited for, and
    the counts of lookups and of draws of the run are those of the blocks. *)
Theorem cluster_addresses_lookup_bounds (addrs : list Address) (k : Z)
    (w : World) :
  let w' := snd (cluster_addresses service random sklearn addrs k w) in
  exists blocks rest,
    log w' = log w ++ concat blocks ++ rest
    /\ Forall2 block_of addrs blocks
    /\ lookups rest = [] /\ sleep_count rest = 0%nat
    /\ calls w' = (calls w + length (lookups (concat blocks)))%nat
    /\ (draws w' + length (lookups (concat blocks))
        = draws w + sleep_count (concat blocks))%nat.
Proof.
  destruct (geocode_each_blocks addrs [] w)
    as (ld & w1 & blocks & Hgeo & G1 & G2 & G3 & G4).
  cbn zeta. rewrite (cluster_addresses_located _ _ _ _ _ _ _ _ Hgeo).
  destruct (cluster_located_world sklearn ld k w1) as [-> | ->].
  - exists blocks, []. rewrite app_nil_r. auto 10.
  - exists blocks, [FitPredict k 42 (map coords ld)].
    cbn [after_fit calls draws log]. rewrite G1, <- app_assoc. auto 10.
Qed.

End PerOccurrence.

Lemma waypoint_count_witness :
  exists (ns : list nat) (results : list (option GeocodedPoint)),
    length ns = length ["A"; "A"; "nowhere"; "C"; "A"]
    /\ StronglySorted lt ns
    /\ Forall (fun n => (calls Demo.w0 <= n
                         < calls (Demo.routed ["A"; "A"; "nowhere"; "C"; "A"] 2).2)%nat) ns
    /\ results = zip_with (fun a n => answer_of a (Demo.service n a))
                   ["A"; "A"; "nowhere"; "C"; "A"] ns
    /\ results = (lookup_each Demo.service Demo.random
                    ["A"; "A"; "nowhere"; "C"; "A"] Demo.w0).1
    /\ all_waypoints (Demo.routed ["A"; "A"; "nowhere"; "C"; "A"] 2).1
       ≡ₚ waypoint_of <$> omap id results
    /\ length (all_waypoints (Demo.routed ["A"; "A"; "nowhere"; "C"; "A"] 2).1)
       = length (omap id results).
Proof.
  apply (waypoint_count Demo.service Demo.random Demo.sklearn
           ["A"; "A"; "nowhere"; "C"; "A"] 2 Demo.w0
           (Demo.routed ["A"; "A"; "nowhere"; "C"; "A"] 2).2
           (Demo.routed ["A"; "A"; "nowhere"; "C"; "A"] 2).1).
  - apply demo_labels_per_row.
  - vm_compute. reflexivity.
Defined.

(** Two clustering routines that are not reproducible with one another give
    different routes for the same points: that two runs agree is a matter of
    the seed, not of the model. *)
Lemma unreproducible_runs_differ :
  fst (cluster_addresses Demo.service Demo.random Demo.sklearn
         ["A"; "C"] 2 Demo.w0)
  <> fst (cluster_addresses Demo.service Demo.random Edge.sklearn_flipped
            ["A"; "C"] 2 Demo.w0).
Proof.
  intros H.
  apply (f_equal (fun r : exn + Routes =>
                    match r with
                    | inr m => m !! "driver_1"
                    | inl _ => None
                    end)) in H.
  vm_compute in H. discriminate H.
Qed.
